(** * PGM codec, checkerboard generator and rotation driver of the NPP demo

    A shallow embedding of [src/imageRotationNPP_real.cpp] and
    [src/imageRotationNPP_simple.cpp].

    Bytes and [int]s are integers in [Z]; the 32-bit conversions are
    written out ([to_uint], [to_int]).  A [std::string] and the contents
    of a file are lists of bytes.  Streams carry their state bits, since
    the code never tests them and their effect on later reads is what
    decides several properties. *)

From Stdlib Require Import ZArith List Lia String Ascii QArith Qround.
From stdpp Require Import base list.
Import ListNotations.

Local Open Scope Z_scope.

(** ** The C++ library operations the programs call *)

Module Cxx.

Definition INT_MAX : Z := 2147483647.
Definition INT_MIN : Z := -2147483648.
Definition UINT_MAX : Z := 4294967295.

(** Conversion to [unsigned int] and to [int] (two's complement). *)
Definition to_uint (z : Z) : Z := z mod 2 ^ 32.
Definition to_int (z : Z) : Z := (z + 2 ^ 31) mod 2 ^ 32 - 2 ^ 31.

(** The bytes of a string literal. *)
Definition chars (s : string) : list Z :=
  map (fun c => Z.of_N (N_of_ascii c)) (list_ascii_of_string s).

Definition NL : Z := 10.
Definition SP : Z := 32.
Definition HASH : Z := 35.

(** [isspace] and [isdigit] in the "C" locale. *)
Definition isspace (c : Z) : bool := (c =? 32) || ((9 <=? c) && (c <=? 13)).
Definition isdigit (c : Z) : bool := (48 <=? c) && (c <=? 57).

(** Exceptions that can leave the functions modelled here. *)
Inductive exn : Type :=
| npp_Exception
| std_invalid_argument
| std_out_of_range.

Inductive result (A : Type) : Type :=
| Ret (a : A)
| Throw (e : exn).
Arguments Ret {A} a.
Arguments Throw {A} e.

(** *** Input streams ([std::ifstream], [std::istringstream]) *)

Record istream : Type := mkStream {
  buf : list Z;        (* characters not yet extracted *)
  eofbit : bool;
  failbit : bool
}.

Definition open (content : list Z) : istream :=
  {| buf := content; eofbit := false; failbit := false |}.

Definition good (s : istream) : bool := negb (eofbit s) && negb (failbit s).

(** Conversion of a stream to [bool]: [!fail()]. *)
Definition ok (s : istream) : bool := negb (failbit s).

(** A sentry that finds the stream not good sets [failbit] and extracts
    nothing. *)
Definition sentry_failed (s : istream) : istream :=
  {| buf := buf s; eofbit := eofbit s; failbit := true |}.

(** Characters up to the first newline; the remainder after the newline,
    or [None] when the input ended first. *)
Fixpoint read_line (l : list Z) : list Z * option (list Z) :=
  match l with
  | [] => ([], None)
  | c :: r =>
      if c =? NL then ([], Some r)
      else let (ln, rest) := read_line r in (c :: ln, rest)
  end.

(** [std::getline(s, line)]: the string is erased only once the sentry has
    succeeded; the delimiter is extracted and dropped; end of input sets
    [eofbit], and [failbit] too when nothing was extracted. *)
Definition getline (s : istream) (line : list Z) : istream * list Z :=
  if good s then
    match read_line (buf s) with
    | (ln, Some rest) => ({| buf := rest; eofbit := false; failbit := false |}, ln)
    | (ln, None) =>
        ({| buf := []; eofbit := true;
            failbit := match ln with [] => true | _ => false end |}, ln)
    end
  else (sentry_failed s, line).

(** [s.read(p, n)]: the characters obtained; fewer than [n] sets
    [eofbit | failbit]. *)
Definition read (s : istream) (n : Z) : istream * list Z :=
  if good s then
    let got := firstn (Z.to_nat n) (buf s) in
    let short := negb (Z.of_nat (length got) =? n) in
    ({| buf := skipn (Z.to_nat n) (buf s); eofbit := short; failbit := short |}, got)
  else (sentry_failed s, []).

Fixpoint skipws (l : list Z) : list Z :=
  match l with
  | c :: r => if isspace c then skipws r else l
  | [] => []
  end.

Fixpoint span_digits (l : list Z) : list Z * list Z :=
  match l with
  | c :: r =>
      if isdigit c then let (ds, rest) := span_digits r in (c :: ds, rest)
      else ([], l)
  | [] => ([], [])
  end.

Definition digits_value (ds : list Z) : Z :=
  fold_left (fun acc d => acc * 10 + (d - 48)) ds 0.

(** An optional sign, then the longest run of decimal digits. *)
Definition scan_int (l : list Z) : option Z * list Z :=
  let '(neg, l1) :=
    match l with
    | c :: r => if c =? 45 then (true, r) else if c =? 43 then (false, r) else (false, l)
    | [] => (false, l)
    end in
  let '(ds, rest) := span_digits l1 in
  match ds with
  | [] => (None, rest)
  | _ => (Some (if neg then - digits_value ds else digits_value ds), rest)
  end.

Definition at_end (l : list Z) : bool := match l with [] => true | _ => false end.

(** [s >> v] for [int v] (C++11): leading white space is skipped; when the
    sentry fails [v] keeps its value; a failed conversion stores 0, an
    overflowing one the nearest limit, both with [failbit]; running into
    the end of the input sets [eofbit]. *)
Definition extract_int (s : istream) (v : Z) : istream * Z :=
  if good s then
    match skipws (buf s) with
    | [] => ({| buf := []; eofbit := true; failbit := true |}, v)
    | l =>
        let '(r, rest) := scan_int l in
        match r with
        | None => ({| buf := rest; eofbit := at_end rest; failbit := true |}, 0)
        | Some n =>
            if n <? INT_MIN then
              ({| buf := rest; eofbit := at_end rest; failbit := true |}, INT_MIN)
            else if INT_MAX <? n then
              ({| buf := rest; eofbit := at_end rest; failbit := true |}, INT_MAX)
            else ({| buf := rest; eofbit := at_end rest; failbit := false |}, n)
        end
    end
  else (sentry_failed s, v).

(** [std::stoi(str)]: [strtol] in base 10; no digits throws
    [std::invalid_argument], a value outside [int] throws
    [std::out_of_range]; what follows the digits is ignored. *)
Definition stoi (str : list Z) : result Z :=
  match fst (scan_int (skipws str)) with
  | None => Throw std_invalid_argument
  | Some n =>
      if (n <? INT_MIN) || (INT_MAX <? n) then Throw std_out_of_range else Ret n
  end.

(** [str[i]]: for [i = str.size()] the reference is to the terminating
    null character (C++11). *)
Definition str_at (str : list Z) (i : nat) : Z :=
  match str !! i with
  | Some c => c
  | None => 0
  end.

(** *** Output ([std::ofstream]) *)

(** Decimal digits of [n], most significant first. *)
Fixpoint dec_digits (fuel : nat) (n : Z) (acc : list Z) : list Z :=
  match fuel with
  | O => acc
  | S f =>
      let acc' := (48 + n mod 10) :: acc in
      if n / 10 =? 0 then acc' else dec_digits f (n / 10) acc'
  end.

(** [os << n] for [unsigned int n]: at most ten digits. *)
Definition print_uint (n : Z) : list Z := dec_digits 10 n [].

End Cxx.

(** ** Host images *)

Module Npp.
Import Cxx.

(** [npp::ImageCPU_8u_C1]: one 8-bit channel, [pitch] bytes from one row
    to the next. *)
Record ImageCPU_8u_C1 : Type := mkImage {
  width : Z;
  height : Z;
  pitch : Z;
  data : list Z
}.

(** The default-constructed image. *)
Definition no_image : ImageCPU_8u_C1 :=
  {| width := 0; height := 0; pitch := 0; data := [] |}.

(** What the host allocator decides and the language leaves open: the
    row pitch chosen for a width, and the bytes a new buffer happens to
    hold. *)
Record Allocator : Type := mkAllocator {
  row_pitch : Z -> Z;
  fresh : nat -> Z
}.

(** Modelled from the spec: the constructor [npp::ImageCPU_8u_C1(w, h)] of
    [ImagesCPU.h], which is not among the sources.  It takes
    [unsigned int] dimensions and allocates [height] rows of [pitch]
    bytes ("row stride may exceed width to allow padding"), without
    initialising them.  The spec gives an image positive dimensions; for
    a size of zero, or one that only the conversion to [unsigned int]
    makes positive, this definition goes beyond what the spec says, and
    it knows no failure of the allocation. *)
Definition new_image (A : Allocator) (w h : Z) : ImageCPU_8u_C1 :=
  let uw := to_uint w in
  let uh := to_uint h in
  let p := row_pitch A uw in
  {| width := uw; height := uh; pitch := p;
     data := map (fresh A) (seq 0 (Z.to_nat (p * uh))) |}.

(** The allocator without padding. *)
Definition packed (f : nat -> Z) : Allocator :=
  {| row_pitch := fun w => w; fresh := f |}.

Definition set_data (img : ImageCPU_8u_C1) (d : list Z) : ImageCPU_8u_C1 :=
  {| width := width img; height := height img; pitch := pitch img; data := d |}.

(** [img.data()[off] = v]. *)
Definition store (img : ImageCPU_8u_C1) (off : Z) (v : Z) : ImageCPU_8u_C1 :=
  set_data img (<[Z.to_nat off := v]> (data img)).

(** The sample at column [x] of row [y]. *)
Definition sample (img : ImageCPU_8u_C1) (x y : Z) : option Z :=
  data img !! Z.to_nat (y * pitch img + x).

(** The [width] bytes of row [y]. *)
Definition row (img : ImageCPU_8u_C1) (y : Z) : list Z :=
  firstn (Z.to_nat (width img)) (skipn (Z.to_nat (to_uint (y * pitch img))) (data img)).

(** Bytes copied to the start of a buffer. *)
Definition blit (src dst : list Z) : list Z := src ++ skipn (length src) dst.

(** [for (int i = 0; i < hi; ++i) body]. *)
Fixpoint for_loop {S : Type} (n : nat) (i : Z) (body : Z -> S -> S) (s : S) : S :=
  match n with
  | O => s
  | Datatypes.S n' => for_loop n' (i + 1) body (body i s)
  end.

Definition for_upto {S : Type} (hi : Z) (body : Z -> S -> S) (s : S) : S :=
  for_loop (Z.to_nat hi) 0 body s.

End Npp.

(** ** The PGM reader and writer *)

Module Pgm.
Import Cxx Npp.

(** The values the uninitialised locals [width] and [height] of
    [loadImagePGM] hold before the extraction.  An extraction that
    stores nothing leaves them in place, and the reads that follow are
    undefined in C++; the model goes on with these values. *)
Record Indeterminate : Type := mkIndeterminate {
  width0 : Z;
  height0 : Z
}.

(** [while (std::getline(file, line) && line[0] == '#') {}].  The third
    component lists, in order, the strings whose element 0 was read. *)
Fixpoint skip_comments (fuel : nat) (file : istream) (line : list Z)
  : istream * list Z * list (list Z) :=
  match fuel with
  | O => (file, line, [])
  | S fuel' =>
      let '(file1, line1) := getline file line in
      if ok file1 then
        if str_at line1 0 =? HASH then
          let '(file2, line2, probed) := skip_comments fuel' file1 line1 in
          (file2, line2, line1 :: probed)
        else (file1, line1, [line1])
      else (file1, line1, [])
  end.

(** A loop that continues has extracted at least one character, so one
    more iteration than there are characters is enough. *)
Definition comment_fuel (file : istream) : nat := S (S (length (buf file))).

(** [loadImagePGM]; [file = None] when the file cannot be opened. *)
Definition loadImagePGM (A : Allocator) (U : Indeterminate)
    (file : option (list Z)) (rImage : ImageCPU_8u_C1)
  : result (bool * ImageCPU_8u_C1) :=
  match file with
  | None => Ret (false, rImage)
  | Some content =>
      let file := open content in
      let '(file, line) := getline file [] in
      if decide (line = chars "P5") then
        let '(file, line, _) := skip_comments (comment_fuel file) file line in
        let iss := open line in
        let '(iss, width) := extract_int iss (width0 U) in
        let '(iss, height) := extract_int iss (height0 U) in
        let '(file, line) := getline file line in
        match stoi line with
        | Throw e => Throw e
        | Ret maxVal =>
            let rImage := new_image A width height in
            let '(file, got) := read file (to_int (width * height)) in
            Ret (true, set_data rImage (blit got (data rImage)))
        end
      else Ret (false, rImage)
  end.

Definition pgm_header (img : ImageCPU_8u_C1) : list Z :=
  chars "P5" ++ [NL]
  ++ print_uint (width img) ++ [SP] ++ print_uint (height img) ++ [NL]
  ++ chars "255" ++ [NL].

(** [saveImagePGM]; [writable = false] when the file cannot be opened. *)
Definition saveImagePGM (writable : bool) (rImage : ImageCPU_8u_C1) : result (list Z) :=
  if writable then
    Ret (for_upto (height rImage) (fun y out => out ++ row rImage y) (pgm_header rImage))
  else Throw npp_Exception.

End Pgm.

(** ** The test pattern *)

Module Pattern.
Import Cxx Npp.

Definition checkSize : Z := 32.

Definition isWhite (x y : Z) : bool :=
  Z.rem (Z.quot x checkSize + Z.quot y checkSize) 2 =? 0.

Definition shade (x y : Z) : Z := if isWhite x y then 255 else 64.

(** The two nested loops, over an image already allocated. *)
Definition fill_checkerboard (w h : Z) (img : ImageCPU_8u_C1) : ImageCPU_8u_C1 :=
  for_upto h (fun y img =>
    for_upto w (fun x img =>
      store img (to_uint (to_uint (y * pitch img) + x)) (shade x y)) img) img.

(** [createTestImage(rImage, width, height)]: the new value of [rImage]. *)
Definition createTestImage (A : Allocator) (rImage : ImageCPU_8u_C1) (w h : Z)
  : ImageCPU_8u_C1 :=
  fill_checkerboard w h (new_image A w h).

End Pattern.

(** ** The drivers *)

Module Driver.
Import Cxx Npp Pgm Pattern.

Definition EXIT_SUCCESS : Z := 0.
Definition EXIT_FAILURE : Z := 1.

(** [double] values met here are products of an [int] and 1.5; they are
    exact in binary64, so rationals represent them. *)
Definition times_1_5 (n : Z) : Q := (inject_Z n * (3 # 2))%Q.

Definition Qtruncate (q : Q) : Z := Z.quot (Qnum q) (Z.pos (Qden q)).

(** [static_cast<int>(d)]: truncation toward zero; not defined when the
    truncated value is not an [int]. *)
Definition static_cast_int (d : Q) : option Z :=
  let t := Qtruncate d in
  if (INT_MIN <=? t) && (t <=? INT_MAX) then Some t else None.

Record NppiSize : Type := mkSize { sz_width : Z; sz_height : Z }.
Record NppiPoint : Type := mkPoint { pt_x : Z; pt_y : Z }.
Record NppiRect : Type := mkRect { r_x : Z; r_y : Z; r_width : Z; r_height : Z }.

Inductive interpolation : Type := NPPI_INTER_NN.

(** The arguments of [nppiRotate_8u_C1R], with the source image standing
    for its device copy. *)
Record RotateArgs : Type := mkRotateArgs {
  pSrc : ImageCPU_8u_C1;
  oSrcSize : NppiSize;
  oSrcROI : NppiRect;
  oBoundingBox : NppiRect;
  angle : Q;
  oRotationCenter : NppiPoint;
  eInterpolation : interpolation
}.

(** From the upload of the source to the call of the backend: the request
    both [main]s build; [None] where a cast is not defined. *)
Definition rotation_request (oHostSrc : ImageCPU_8u_C1) : option RotateArgs :=
  let size := {| sz_width := to_int (width oHostSrc);
                 sz_height := to_int (height oHostSrc) |} in
  let roi := {| r_x := 0; r_y := 0;
                r_width := sz_width size; r_height := sz_height size |} in
  match static_cast_int (times_1_5 (sz_width size)),
        static_cast_int (times_1_5 (sz_height size)) with
  | Some newWidth, Some newHeight =>
      Some {| pSrc := oHostSrc;
              oSrcSize := size;
              oSrcROI := roi;
              oBoundingBox := {| r_x := 0; r_y := 0;
                                 r_width := newWidth; r_height := newHeight |};
              angle := 45;
              oRotationCenter := {| pt_x := Z.quot (sz_width size) 2;
                                    pt_y := Z.quot (sz_height size) 2 |};
              eInterpolation := NPPI_INTER_NN |}
  | _, _ => None
  end.

(** What a run depends on, once [findCudaDevice] has selected a device.
    The console output and the call of the image converter at the end of
    [main] are left out. *)
Record Env : Type := mkEnv {
  capable : bool;                     (* checkCudaCapabilities(1, 0) *)
  input_file : option (list Z);       (* the input file, if it opens *)
  output_writable : bool;             (* whether the output file opens *)
  host : Allocator;
  locals : Indeterminate;
  (* the backend with the device images and their transfers: the
     destination buffer as downloaded, or [None] when one of them throws
     [npp::Exception], as [NPP_CHECK_NPP] does for a status other than
     success *)
  nppiRotate_8u_C1R : RotateArgs -> option (list Z)
}.

Inductive outcome : Type :=
| Exit (code : Z) (written : option (list Z))
| Undefined.

(** The part of [main] after the source image is in place. *)
Definition rotate_and_save (E : Env) (oHostSrc : ImageCPU_8u_C1) : outcome :=
  match rotation_request oHostSrc with
  | None => Undefined
  | Some args =>
      match nppiRotate_8u_C1R E args with
      | None => Exit EXIT_FAILURE None
      | Some pixels =>
          let box := oBoundingBox args in
          let oHostDst := set_data (new_image (host E) (r_width box) (r_height box)) pixels in
          match saveImagePGM (output_writable E) oHostDst with
          | Throw _ => Exit EXIT_FAILURE None
          | Ret bytes => Exit EXIT_SUCCESS (Some bytes)
          end
      end
  end.

(** The pattern [main] of [imageRotationNPP_real.cpp] writes in place of
    an image it could not load. *)
Definition fallback_pattern (A : Allocator) : ImageCPU_8u_C1 :=
  let oHostSrc := new_image A 512 512 in
  for_upto 512 (fun y img =>
    for_upto 512 (fun x img =>
      store img (to_uint (to_uint (y * pitch img) + x)) (shade x y)) img) oHostSrc.

(** [main] of [imageRotationNPP_real.cpp]; every exception ends in one of
    the two handlers, both of which exit with [EXIT_FAILURE]. *)
Definition main_real (E : Env) : outcome :=
  if capable E then
    match loadImagePGM (host E) (locals E) (input_file E) no_image with
    | Throw _ => Exit EXIT_FAILURE None
    | Ret (false, _) => rotate_and_save E (fallback_pattern (host E))
    | Ret (true, oHostSrc) => rotate_and_save E oHostSrc
    end
  else Exit EXIT_SUCCESS None.

(** [main] of [imageRotationNPP_simple.cpp]. *)
Definition main_simple (E : Env) : outcome :=
  if capable E then
    rotate_and_save E (createTestImage (host E) no_image 512 512)
  else Exit EXIT_SUCCESS None.

End Driver.

(** ** The version report *)

Module Info.
Import Cxx.

Record NppLibraryVersion : Type := mkLibVersion {
  major : Z;
  minor : Z;
  build : Z
}.

(** What [printfNPPinfo] asks the libraries. *)
Record Platform : Type := mkPlatform {
  nppGetLibVersion : NppLibraryVersion;
  cudaDriverGetVersion : Z;
  cudaRuntimeGetVersion : Z;
  checkCudaCapabilities : Z -> Z -> bool
}.

(** [printf("%d", n)] for an [int]. *)
Definition print_int (n : Z) : list Z :=
  if n <? 0 then 45 :: print_uint (- n) else print_uint n.

Definition DOT : Z := 46.

(** [printfNPPinfo]: the text printed and the value returned. *)
Definition printfNPPinfo (P : Platform) : list Z * bool :=
  let libVer := nppGetLibVersion P in
  let driverVersion := cudaDriverGetVersion P in
  let runtimeVersion := cudaRuntimeGetVersion P in
  let out :=
    chars "NPP Library Version " ++ print_int (major libVer) ++ [DOT]
      ++ print_int (minor libVer) ++ [DOT] ++ print_int (build libVer) ++ [NL]
    ++ chars "  CUDA Driver  Version: "
      ++ print_int (Z.quot driverVersion 1000) ++ [DOT]
      ++ print_int (Z.quot (Z.rem driverVersion 100) 10) ++ [NL]
    ++ chars "  CUDA Runtime Version: "
      ++ print_int (Z.quot runtimeVersion 1000) ++ [DOT]
      ++ print_int (Z.quot (Z.rem runtimeVersion 100) 10) ++ [NL] in
  let bVal := checkCudaCapabilities P 1 0 in
  (out, bVal).

End Info.

(** ** Notions used to state the properties *)

Module Spec.
Import Cxx Npp Pgm Pattern Driver.

(** The first line of a stream: what precedes its first newline. *)
Fixpoint first_line (content : list Z) : list Z :=
  match content with
  | [] => []
  | c :: r => if c =? NL then [] else c :: first_line r
  end.

Definition no_newline (l : list Z) : Prop := Forall (fun c => c <> NL) l.

Definition digit_string (ds : list Z) : Prop :=
  Forall (fun c => isdigit c = true) ds.

(** A header in the layout the writer uses, with any max-value line. *)
Definition header (w h : Z) (maxline : list Z) : list Z :=
  chars "P5" ++ [NL] ++ print_uint w ++ [SP] ++ print_uint h ++ [NL]
  ++ maxline ++ [NL].

(** A comment line of the header. *)
Definition comment_line (text : list Z) : list Z := HASH :: text ++ [NL].

(** The colour of the tile a pixel lies in. *)
Definition tile_colour (x y : Z) : Z :=
  if Z.even (x / 32 + y / 32) then 255 else 64.

(** The pixels written when the loops have reached row [j], column [k]. *)
Definition written (w j k x y : Z) : Prop :=
  (0 <= y < j /\ 0 <= x < w) \/ (y = j /\ 0 <= x < k).

Definition fill_invariant (img0 : ImageCPU_8u_C1) (w j k : Z) (img : ImageCPU_8u_C1)
  : Prop :=
  width img = width img0 /\ height img = height img0 /\
  pitch img = pitch img0 /\
  length (data img) = length (data img0) /\
  forall x y, written w j k x y ->
    data img !! Z.to_nat (y * pitch img0 + x) = Some (shade x y).

(** The destination image [main] saves for a request and the pixels the
    backend returned. *)
Definition saved_image (A : Allocator) (args : RotateArgs) (pixels : list Z)
  : ImageCPU_8u_C1 :=
  set_data (new_image A (r_width (oBoundingBox args)) (r_height (oBoundingBox args)))
           pixels.

(** What [main] does with the backend's answer to a request. *)
Definition after_backend (E : Env) (args : RotateArgs) (answer : option (list Z))
  : outcome :=
  match answer with
  | None => Exit EXIT_FAILURE None
  | Some pixels =>
      match saveImagePGM (output_writable E) (saved_image (host E) args pixels) with
      | Throw _ => Exit EXIT_FAILURE None
      | Ret bytes => Exit EXIT_SUCCESS (Some bytes)
      end
  end.

(** The largest dimension whose one-and-a-half is still an [int]. *)
Definition MAX_SCALABLE : Z := 1431655765.

(** The stream up to and including the dimension line, as the writer
    lays it out. *)
Definition dimension_lines (w h : Z) : list Z :=
  chars "P5" ++ [NL] ++ print_uint w ++ [SP] ++ print_uint h ++ [NL].

(** What an outcome of [main] says about the run that produced it. *)
Definition outcome_sound (E : Env) (o : outcome) : Prop :=
  match o with
  | Exit code (Some bytes) =>
      code = EXIT_SUCCESS /\ capable E = true /\ output_writable E = true /\
      exists args pixels,
        nppiRotate_8u_C1R E args = Some pixels /\
        saveImagePGM true (saved_image (host E) args pixels) = Ret bytes
  | Exit code None =>
      (code = EXIT_SUCCESS /\ capable E = false) \/
      (code = EXIT_FAILURE /\ capable E = true)
  | Undefined => capable E = true
  end.

(** The positions at which [std::string::operator[]] is defined: up to
    and including [size()], where it refers to the terminator (C++11). *)
Definition in_bounds (str : list Z) (pos : nat) : bool :=
  (pos <=? length str)%nat.

(** A dimension line that starts with two numbers in the writer's
    layout and goes on with anything. *)
Definition dimension_line (w h : Z) (junk : list Z) : list Z :=
  print_uint w ++ SP :: print_uint h ++ junk.

(** What may follow a number without being part of it. *)
Definition not_a_digit_first (junk : list Z) : Prop :=
  match junk with
  | [] => True
  | c :: _ => isdigit c = false
  end.

(** The version number the CUDA runtime reports for [major.minor]. *)
Definition cuda_version (major minor : Z) : Z := 1000 * major + 10 * minor.

End Spec.

Import Cxx Npp Pgm Pattern Driver Info Spec.

(** * Properties *)

(** ** Integer conversions *)

(** Goals that only say a product or a sum stays inside a machine
    range. *)
Ltac in_range :=
  unfold UINT_MAX, INT_MAX, INT_MIN, MAX_SCALABLE in *; nia.

Lemma to_uint_id z : 0 <= z <= UINT_MAX -> to_uint z = z.
Proof. unfold to_uint, UINT_MAX. intros. apply Z.mod_small. lia. Qed.

Lemma to_int_id z : INT_MIN <= z <= INT_MAX -> to_int z = z.
Proof.
  unfold to_int, INT_MIN, INT_MAX. intros.
  rewrite Z.mod_small; lia.
Qed.

(** ** Lines and numbers *)

Lemma read_line_first_line l : fst (read_line l) = first_line l.
Proof.
  induction l as [|c r IH]; simpl; [reflexivity|].
  destruct (c =? NL); [reflexivity|].
  destruct (read_line r) as [ln rest]. simpl in *. now rewrite IH.
Qed.

Lemma read_line_app l rest :
  no_newline l -> read_line (l ++ NL :: rest) = (l, Some rest).
Proof.
  induction 1 as [|c l Hc _ IH]; simpl.
  - reflexivity.
  - destruct (Z.eqb_spec c NL); [contradiction|]. now rewrite IH.
Qed.

Lemma read_line_no_newline l :
  no_newline l -> read_line l = (l, None).
Proof.
  induction 1 as [|c l Hc _ IH]; simpl.
  - reflexivity.
  - destruct (Z.eqb_spec c NL); [contradiction|]. now rewrite IH.
Qed.

Lemma getline_open_app l rest line :
  no_newline l -> getline (open (l ++ NL :: rest)) line = (open rest, l).
Proof.
  intros H. unfold getline, open. simpl. now rewrite read_line_app.
Qed.

Lemma isdigit_inv c : isdigit c = true -> 48 <= c <= 57.
Proof. unfold isdigit. lia. Qed.

Lemma digit_string_no_newline ds : digit_string ds -> no_newline ds.
Proof.
  unfold digit_string, no_newline. intros H.
  eapply Forall_impl; [exact H|].
  intros c Hc%isdigit_inv. unfold NL. lia.
Qed.

Lemma span_digits_app ds rest :
  digit_string ds ->
  match rest with [] => True | c :: _ => isdigit c = false end ->
  span_digits (ds ++ rest) = (ds, rest).
Proof.
  intros Hds Hrest. induction Hds as [|c ds Hc _ IH]; simpl.
  - destruct rest as [|c r]; [reflexivity|]. simpl. now rewrite Hrest.
  - now rewrite Hc, IH.
Qed.

Lemma skipws_digit c r : isdigit c = true -> skipws (c :: r) = c :: r.
Proof.
  intros H%isdigit_inv. simpl. unfold isspace.
  replace (c =? 32) with false by lia.
  replace (9 <=? c) with true by lia.
  replace (c <=? 13) with false by lia. reflexivity.
Qed.

Lemma digits_value_snoc ds d :
  digits_value (ds ++ [d]) = digits_value ds * 10 + (d - 48).
Proof. unfold digits_value. now rewrite fold_left_app. Qed.

(** The printed form of a number: a non-empty digit string that reads
    back as the number. *)
Lemma dec_digits_spec fuel : forall n acc,
  0 <= n < 10 ^ Z.of_nat fuel -> fuel <> O ->
  exists ds, dec_digits fuel n acc = ds ++ acc /\ ds <> [] /\
             digit_string ds /\ digits_value ds = n.
Proof.
  induction fuel as [|f IH]; intros n acc Hn Hf; [congruence|].
  simpl dec_digits.
  assert (Hd : 0 <= n mod 10 < 10) by (apply Z.mod_pos_bound; lia).
  assert (Hdig : isdigit (48 + n mod 10) = true) by (unfold isdigit; lia).
  destruct (Z.eqb_spec (n / 10) 0) as [Hq|Hq].
  - exists [48 + n mod 10]. repeat split.
    + congruence.
    + now constructor.
    + unfold digits_value. simpl.
      pose proof (Z.div_mod n 10 ltac:(lia)). lia.
  - assert (Hq' : 0 <= n / 10 < 10 ^ Z.of_nat f).
    { split; [apply Z.div_pos; lia|].
      apply Z.div_lt_upper_bound; [lia|].
      replace (Z.of_nat (S f)) with (Z.succ (Z.of_nat f)) in Hn by lia.
      rewrite Z.pow_succ_r in Hn; lia. }
    assert (Hf' : f <> O).
    { intros ->. simpl in Hq'. lia. }
    destruct (IH (n / 10) ((48 + n mod 10) :: acc) Hq' Hf')
      as (ds & -> & Hne & Hds & Hval).
    exists (ds ++ [48 + n mod 10]). repeat split.
    + now rewrite <- app_assoc.
    + destruct ds; discriminate.
    + apply Forall_app. split; [assumption|now constructor].
    + rewrite digits_value_snoc, Hval.
      pose proof (Z.div_mod n 10 ltac:(lia)). lia.
Qed.

Lemma print_uint_spec n :
  0 <= n <= UINT_MAX ->
  print_uint n <> [] /\ digit_string (print_uint n) /\
  digits_value (print_uint n) = n.
Proof.
  intros Hn. unfold print_uint.
  destruct (dec_digits_spec 10 n []) as (ds & E & Hne & Hds & Hval).
  - unfold UINT_MAX in Hn. simpl. lia.
  - discriminate.
  - rewrite app_nil_r in E. rewrite E. auto.
Qed.

Lemma extract_int_digits ds rest v :
  ds <> [] -> digit_string ds ->
  INT_MIN <= digits_value ds <= INT_MAX ->
  match rest with [] => True | c :: _ => isdigit c = false end ->
  extract_int (open (ds ++ rest)) v =
  ({| buf := rest; eofbit := at_end rest; failbit := false |}, digits_value ds).
Proof.
  intros Hne Hds Hrange Hrest.
  destruct ds as [|c ds']; [congruence|].
  pose proof (Forall_inv Hds) as Hc. simpl in Hc.
  unfold extract_int. simpl good. cbv iota.
  change (buf (open ((c :: ds') ++ rest))) with (c :: (ds' ++ rest)).
  rewrite (skipws_digit _ _ Hc).
  unfold scan_int.
  apply isdigit_inv in Hc as Hc'.
  replace (c =? 45) with false by lia.
  replace (c =? 43) with false by lia.
  change (c :: ds' ++ rest) with ((c :: ds') ++ rest).
  rewrite (span_digits_app _ _ Hds Hrest).
  replace (digits_value (c :: ds') <? INT_MIN) with false by lia.
  replace (INT_MAX <? digits_value (c :: ds')) with false by lia.
  reflexivity.
Qed.

Lemma extract_int_space l v :
  extract_int (open (SP :: l)) v = extract_int (open l) v.
Proof. reflexivity. Qed.

Lemma chars_P5_no_newline : no_newline (chars "P5").
Proof. repeat constructor; discriminate. Qed.

Lemma blit_all (src dst : list Z) :
  length src = length dst -> blit src dst = src.
Proof.
  intros H. unfold blit. rewrite H, skipn_all. apply app_nil_r.
Qed.

(** Decoding a stream that starts with a header of the writer's layout:
    the call succeeds whatever follows the header, and takes as many of
    the following bytes as there are, up to [w * h]. *)
Lemma load_after_header A U w h maxline m payload rImage :
  0 < w -> 0 < h -> w * h <= INT_MAX ->
  no_newline maxline -> stoi maxline = Ret m ->
  loadImagePGM A U (Some (header w h maxline ++ payload)) rImage =
  Ret (true,
       set_data (new_image A w h)
         (blit (firstn (Z.to_nat (w * h)) payload) (data (new_image A w h)))).
Proof.
  intros Hw Hh Hfit Hml Hm.
  assert (Hwr : 0 <= w <= INT_MAX) by in_range.
  assert (Hhr : 0 <= h <= INT_MAX) by in_range.
  destruct (print_uint_spec w) as (Hwne & Hwd & Hwv);
    [in_range|].
  destruct (print_uint_spec h) as (Hhne & Hhd & Hhv);
    [in_range|].
  unfold header. set (pw := print_uint w) in *. set (ph := print_uint h) in *.
  clearbody pw ph.
  unfold loadImagePGM.
  repeat rewrite <- app_assoc. cbn [app].
  rewrite (getline_open_app _ _ _ chars_P5_no_newline).
  destruct (decide (chars "P5" = chars "P5")) as [_|]; [|congruence].
  assert (Hline : no_newline (pw ++ SP :: ph)).
  { apply Forall_app. split; [now apply digit_string_no_newline|].
    constructor; [discriminate|now apply digit_string_no_newline]. }
  change (pw ++ SP :: ph ++ NL :: maxline ++ NL :: payload)
    with (pw ++ (SP :: ph) ++ NL :: maxline ++ NL :: payload).
  rewrite (app_assoc pw).
  unfold comment_fuel. cbn [skip_comments].
  rewrite (getline_open_app _ _ _ Hline).
  cbn [ok open failbit negb].
  assert (Hfirst : (str_at (pw ++ SP :: ph) 0 =? HASH) = false).
  { destruct pw as [|c pw']; [congruence|].
    pose proof (isdigit_inv _ (Forall_inv Hwd)). unfold str_at, HASH. simpl. lia. }
  rewrite Hfirst.
  rewrite (extract_int_digits pw (SP :: ph) _ Hwne Hwd);
    [|unfold INT_MIN; lia|reflexivity].
  change {| buf := SP :: ph; eofbit := at_end (SP :: ph); failbit := false |}
    with (open (SP :: ph)).
  rewrite extract_int_space.
  rewrite <- (app_nil_r ph) at 1.
  rewrite (extract_int_digits ph [] _ Hhne Hhd);
    [|unfold INT_MIN; lia|exact I].
  rewrite (getline_open_app _ _ _ Hml), Hm, Hwv, Hhv.
  rewrite (to_int_id (w * h)) by in_range.
  reflexivity.
Qed.

(** ** The reader *)

Lemma getline_open_first_line content line :
  snd (getline (open content) line) = first_line content.
Proof.
  unfold getline, open. simpl.
  rewrite <- read_line_first_line.
  destruct (read_line content) as [ln [rest|]]; reflexivity.
Qed.

(** The reader on a stream with a comment line, and on one that ends
    inside the dimension line. *)
Example load_with_comment :
  loadImagePGM (packed (fun _ => 0)) {| width0 := 0; height0 := 0 |}
    (Some (chars "P5" ++ [NL] ++ chars "# test" ++ [NL] ++ chars "2 2" ++ [NL]
           ++ chars "255" ++ [NL; 1; 2; 3; 4]))
    no_image
  = Ret (true, mkImage 2 2 2 [1; 2; 3; 4]).
Proof. vm_compute. reflexivity. Qed.

Example load_header_only :
  loadImagePGM (packed (fun _ => 7)) {| width0 := 0; height0 := 0 |}
    (Some (chars "P5" ++ [NL] ++ chars "2 2")) no_image
  = Ret (true, mkImage 2 2 2 [7; 7; 7; 7]).
Proof. vm_compute. reflexivity. Qed.

Lemma load_wrong_magic A U content rImage :
  first_line content <> chars "P5" ->
  loadImagePGM A U (Some content) rImage = Ret (false, rImage).
Proof.
  intros Hmagic. unfold loadImagePGM.
  pose proof (getline_open_first_line content []) as Hline.
  destruct (getline (open content) []) as [file line]. simpl in Hline. subst line.
  destruct (decide (first_line content = chars "P5")); [contradiction|reflexivity].
Qed.

(** C4.  A stream whose first line is not the magic token "P5" is
    rejected: [loadImagePGM] returns [false] and the caller's image is
    left as it was, no image having been constructed or filled. *)
Theorem magic_mismatch_rejected A U content rImage :
  first_line content <> chars "P5" ->
  loadImagePGM A U (Some content) rImage = Ret (false, rImage).
Proof. exact (load_wrong_magic A U content rImage). Qed.

Lemma magic_mismatch_rejected_witness :
  loadImagePGM (packed (fun _ => 0)) {| width0 := 0; height0 := 0 |}
    (Some (chars "P2" ++ [NL] ++ chars "1 1" ++ [NL] ++ chars "255" ++ [NL; 9]))
    no_image
  = Ret (false, no_image).
Proof.
  apply magic_mismatch_rejected. vm_compute. discriminate.
Defined.

(** ** Loops *)

Lemma for_loop_ind {S : Type} (P : Z -> S -> Prop) (body : Z -> S -> S) n :
  forall i s,
  P i s ->
  (forall j t, i <= j < i + Z.of_nat n -> P j t -> P (j + 1) (body j t)) ->
  P (i + Z.of_nat n) (for_loop n i body s).
Proof.
  induction n as [|n IH]; intros i s Hs Hstep.
  - simpl. now replace (i + Z.of_nat 0) with i by lia.
  - simpl for_loop.
    replace (i + Z.of_nat (Datatypes.S n)) with (i + 1 + Z.of_nat n) by lia.
    apply IH.
    + apply Hstep; [lia|assumption].
    + intros j t Hj. apply Hstep. lia.
Qed.

Lemma for_upto_ind {S : Type} (P : Z -> S -> Prop) (body : Z -> S -> S) hi s :
  0 <= hi ->
  P 0 s ->
  (forall j t, 0 <= j < hi -> P j t -> P (j + 1) (body j t)) ->
  P hi (for_upto hi body s).
Proof.
  intros Hhi Hs Hstep. unfold for_upto.
  replace hi with (0 + Z.of_nat (Z.to_nat hi)) at 1 by lia.
  apply for_loop_ind; [assumption|].
  intros j t Hj. apply Hstep. lia.
Qed.

(** ** The writer *)

Lemma row_packed img y :
  pitch img = width img -> 0 <= width img -> 0 <= y ->
  y * width img <= UINT_MAX ->
  row img y =
  take (Z.to_nat (width img)) (drop (Z.to_nat (y * width img)) (data img)).
Proof.
  intros Hp Hw Hy Hfit. unfold row. rewrite Hp.
  rewrite to_uint_id by nia. reflexivity.
Qed.

Lemma save_packed img :
  pitch img = width img -> 0 <= width img -> 0 <= height img ->
  width img * height img <= UINT_MAX ->
  length (data img) = Z.to_nat (width img * height img) ->
  saveImagePGM true img = Ret (pgm_header img ++ data img).
Proof.
  intros Hp Hw Hh Hfit Hlen. unfold saveImagePGM. f_equal.
  assert (Hinv : for_upto (height img) (fun y out => out ++ row img y) (pgm_header img)
                 = pgm_header img ++ take (Z.to_nat (height img * width img)) (data img)).
  { apply (for_upto_ind
             (fun j out => out = pgm_header img
                                 ++ take (Z.to_nat (j * width img)) (data img)));
      [assumption| |].
    - simpl. now rewrite app_nil_r.
    - intros j out Hj ->.
      rewrite row_packed by (try assumption; nia).
      rewrite <- app_assoc. f_equal.
      rewrite take_take_drop. f_equal. nia. }
  rewrite Hinv. f_equal. apply take_ge. rewrite Hlen. lia.
Qed.

(** ** Round trip *)

Lemma new_image_length A w h :
  length (data (new_image A w h)) =
  Z.to_nat (row_pitch A (to_uint w) * to_uint h).
Proof. unfold new_image. simpl. now rewrite length_map, length_seq. Qed.

(** C1.  An image with 8-bit samples and no padding between rows (its
    dimensions positive and its size an [int], as [loadImagePGM] computes
    it) is written by [saveImagePGM] and read back by [loadImagePGM],
    itself allocating without padding, with the same width, height and
    pixels. *)
Theorem pgm_round_trip A U img rImage :
  0 < width img -> 0 < height img ->
  width img * height img <= INT_MAX ->
  pitch img = width img ->
  length (data img) = Z.to_nat (width img * height img) ->
  Forall (fun b => 0 <= b <= 255) (data img) ->
  row_pitch A (width img) = width img ->
  exists bytes img',
    saveImagePGM true img = Ret bytes /\
    loadImagePGM A U (Some bytes) rImage = Ret (true, img') /\
    width img' = width img /\
    height img' = height img /\
    data img' = data img.
Proof.
  intros Hw Hh Hfit Hp Hlen _ HA.
  assert (Hwr : 0 <= width img <= INT_MAX) by in_range.
  assert (Hhr : 0 <= height img <= INT_MAX) by in_range.
  eexists. eexists. split; [|split].
  - apply save_packed; unfold UINT_MAX, INT_MAX in *; try assumption; lia.
  - change (pgm_header img)
      with (header (width img) (height img) (chars "255")).
    apply (load_after_header A U _ _ (chars "255") 255); try assumption.
    + repeat constructor; discriminate.
    + reflexivity.
  - assert (Huw : to_uint (width img) = width img)
      by (apply to_uint_id; in_range).
    assert (Huh : to_uint (height img) = height img)
      by (apply to_uint_id; in_range).
    simpl. rewrite Huw, Huh. repeat split.
    rewrite take_ge by lia.
    apply blit_all.
    rewrite length_map, length_seq, HA. exact Hlen.
Qed.

Lemma pgm_round_trip_witness :
  exists bytes img',
    saveImagePGM true (mkImage 3 2 3 [10; 35; 32; 0; 255; 64]) = Ret bytes /\
    loadImagePGM (packed (fun _ => 0)) {| width0 := 0; height0 := 0 |}
      (Some bytes) no_image = Ret (true, img') /\
    width img' = 3 /\ height img' = 2 /\ data img' = [10; 35; 32; 0; 255; 64].
Proof.
  apply (pgm_round_trip (packed (fun _ => 0)) {| width0 := 0; height0 := 0 |}
           (mkImage 3 2 3 [10; 35; 32; 0; 255; 64]) no_image);
    unfold INT_MAX; simpl; try reflexivity; try lia.
  repeat constructor; lia.
Defined.

(** ** The checkerboard *)

Lemma shade_tile_colour x y : 0 <= x -> 0 <= y -> shade x y = tile_colour x y.
Proof.
  intros Hx Hy. unfold shade, isWhite, tile_colour, checkSize.
  rewrite !Z.quot_div_nonneg by lia.
  assert (H0 : 0 <= x / 32 + y / 32).
  { pose proof (Z.div_pos x 32). pose proof (Z.div_pos y 32). lia. }
  rewrite Z.rem_mod_nonneg by lia.
  set (n := x / 32 + y / 32) in *. clearbody n.
  now rewrite (Zeven_mod n).
Qed.

Lemma fill_checkerboard_spec w h img0 :
  0 <= w <= pitch img0 -> 0 <= h ->
  pitch img0 * h <= UINT_MAX ->
  (Z.to_nat (pitch img0 * h) <= length (data img0))%nat ->
  fill_invariant img0 w h 0 (fill_checkerboard w h img0).
Proof.
  intros Hw Hh Hfit Hlen. unfold fill_checkerboard.
  set (p := pitch img0) in *.
  apply (for_upto_ind (fun j img => fill_invariant img0 w j 0 img)); [assumption| |].
  - repeat split. intros x y [[? _]|[_ ?]]; lia.
  - intros j img Hj Hinv.
    assert (Hrow : fill_invariant img0 w j w
              (for_upto w (fun x img1 =>
                 store img1 (to_uint (to_uint (j * pitch img1) + x)) (shade x j)) img)).
    { apply (for_upto_ind (fun k img1 => fill_invariant img0 w j k img1));
        [lia|assumption|].
      clear img Hinv. intros k img Hk (Hwd & Hht & Hpi & Hln & Hpx).
      fold p in Hpi, Hpx.
      assert (Hjk : 0 <= j * p + k < p * h) by nia.
      rewrite Hpi.
      rewrite (to_uint_id (j * p)) by in_range.
      rewrite (to_uint_id (j * p + k)) by in_range.
      unfold fill_invariant, store. simpl. fold p.
      rewrite length_insert. repeat split; try assumption.
      intros x y Hxy.
      destruct (Z.eq_dec (y * p + x) (j * p + k)) as [Heq|Hne].
      - assert (y = j /\ x = k) as [-> ->].
        { destruct Hxy as [[? ?]|[? ?]]; [nia|lia]. }
        apply list_lookup_insert_eq. lia.
      - rewrite list_lookup_insert_ne.
        + apply Hpx. destruct Hxy as [?|[-> ?]]; [now left|right].
          split; [reflexivity|]. assert (x <> k) by (intros ->; lia). lia.
        + assert (0 <= y * p + x) by (destruct Hxy as [[? ?]|[? ?]]; nia).
          lia. }
    destruct Hrow as (Hwd & Hht & Hpi & Hln & Hpx).
    repeat split; try assumption.
    intros x y Hxy. apply Hpx.
    destruct Hxy as [[? ?]|[? ?]]; [|lia].
    destruct (Z.eq_dec y j) as [->|]; [now right|left; lia].
Qed.

Lemma new_image_small A w h :
  0 <= w <= UINT_MAX -> 0 <= h <= UINT_MAX ->
  new_image A w h =
  {| width := w; height := h; pitch := row_pitch A w;
     data := map (fresh A) (seq 0 (Z.to_nat (row_pitch A w * h))) |}.
Proof.
  intros Hw Hh. unfold new_image. now rewrite !to_uint_id.
Qed.

(** What [createTestImage] leaves in [rImage]. *)
Lemma createTestImage_spec A rImage w h :
  0 < w -> 0 < h -> w <= row_pitch A w -> row_pitch A w * h <= UINT_MAX ->
  let img := createTestImage A rImage w h in
  width img = w /\ height img = h /\ pitch img = row_pitch A w /\
  length (data img) = Z.to_nat (row_pitch A w * h) /\
  forall x y, 0 <= x < w -> 0 <= y < h ->
    data img !! Z.to_nat (y * row_pitch A w + x) = Some (shade x y).
Proof.
  intros Hw Hh Hp Hfit img.
  assert (Hwr : 0 <= w <= UINT_MAX) by nia.
  assert (Hhr : 0 <= h <= UINT_MAX) by nia.
  pose proof (fill_checkerboard_spec w h (new_image A w h)) as Hspec.
  rewrite (new_image_small A w h Hwr Hhr) in Hspec. simpl in Hspec.
  rewrite length_map, length_seq in Hspec.
  destruct Hspec as (Hwd & Hht & Hpi & Hln & Hpx); try lia.
  simpl in Hwd, Hht, Hpi, Hln, Hpx. rewrite length_map, length_seq in Hln.
  unfold img, createTestImage.
  rewrite (new_image_small A w h Hwr Hhr).
  repeat split; try assumption.
  intros x y Hx Hy. apply Hpx. left. lia.
Qed.

(** C6.  In the generated image the sample at [(x, y)] is 255 when
    [x / 32 + y / 32] is even and 64 otherwise; for [Generate(512, 512)]
    the samples at (0,0), (32,0), (64,0) and (0,32) are 255, 64, 255 and
    64. *)
Theorem checkerboard_samples A rImage w h :
  0 < w -> 0 < h -> w <= row_pitch A w -> row_pitch A w * h <= UINT_MAX ->
  (forall x y, 0 <= x < w -> 0 <= y < h ->
     sample (createTestImage A rImage w h) x y
     = Some (if Z.even (x / 32 + y / 32) then 255 else 64)) /\
  (w = 512 -> h = 512 ->
     sample (createTestImage A rImage w h) 0 0 = Some 255 /\
     sample (createTestImage A rImage w h) 32 0 = Some 64 /\
     sample (createTestImage A rImage w h) 64 0 = Some 255 /\
     sample (createTestImage A rImage w h) 0 32 = Some 64).
Proof.
  intros Hw Hh Hp Hfit.
  destruct (createTestImage_spec A rImage w h Hw Hh Hp Hfit)
    as (_ & _ & Hpi & _ & Hpx).
  assert (Hall : forall x y, 0 <= x < w -> 0 <= y < h ->
            sample (createTestImage A rImage w h) x y = Some (tile_colour x y)).
  { intros x y Hx Hy. unfold sample. rewrite Hpi, (Hpx x y Hx Hy).
    now rewrite shade_tile_colour by lia. }
  split; [exact Hall|].
  intros Ew Eh. repeat split; rewrite Hall by lia; reflexivity.
Qed.

Lemma checkerboard_samples_witness :
  sample (createTestImage (packed (fun _ => 0)) no_image 512 512) 32 0 = Some 64.
Proof.
  destruct (checkerboard_samples (packed (fun _ => 0)) no_image 512 512)
    as [_ H]; [unfold row_pitch, packed, UINT_MAX; lia ..|].
  destruct (H eq_refl eq_refl) as (_ & H32 & _). exact H32.
Defined.

Lemma image_eq (a b : ImageCPU_8u_C1) :
  width a = width b -> height a = height b -> pitch a = pitch b ->
  data a = data b -> a = b.
Proof. destruct a, b. simpl. now intros -> -> -> ->. Qed.

(** C7.  Two calls of [createTestImage] with the same positive dimensions
    give the same pixels in every row, whatever [rImage] held before and
    whatever the two new buffers held; without padding the two images,
    buffers included, are equal. *)
Theorem createTestImage_deterministic A1 A2 r1 r2 w h :
  0 < w -> 0 < h ->
  row_pitch A1 w = row_pitch A2 w ->
  w <= row_pitch A1 w -> row_pitch A1 w * h <= UINT_MAX ->
  (forall y, 0 <= y < h ->
     row (createTestImage A1 r1 w h) y = row (createTestImage A2 r2 w h) y) /\
  (row_pitch A1 w = w ->
     createTestImage A1 r1 w h = createTestImage A2 r2 w h).
Proof.
  intros Hw Hh Hsame Hp Hfit.
  destruct (createTestImage_spec A1 r1 w h Hw Hh Hp Hfit)
    as (Hwd1 & Hht1 & Hpi1 & Hln1 & Hpx1).
  destruct (createTestImage_spec A2 r2 w h Hw Hh) as (Hwd2 & Hht2 & Hpi2 & Hln2 & Hpx2);
    [rewrite <- Hsame; assumption ..|].
  rewrite <- Hsame in Hpi2, Hln2, Hpx2.
  set (p := row_pitch A1 w) in *.
  set (img1 := createTestImage A1 r1 w h) in *.
  set (img2 := createTestImage A2 r2 w h) in *.
  split.
  - intros y Hy. unfold row. rewrite Hwd1, Hwd2, Hpi1, Hpi2.
    rewrite to_uint_id by in_range.
    apply list_eq. intros i.
    destruct (Nat.lt_ge_cases i (Z.to_nat w)) as [Hi|Hi].
    + rewrite !lookup_take_lt, !lookup_drop by assumption.
      replace (Z.to_nat (y * p) + i)%nat with (Z.to_nat (y * p + Z.of_nat i)) by nia.
      rewrite Hpx1, Hpx2 by lia. reflexivity.
    + now rewrite !lookup_take_ge.
  - intros Hpacked. apply image_eq; try congruence.
    apply list_eq. intros i.
    destruct (Nat.lt_ge_cases i (length (data img1))) as [Hi|Hi].
    + rewrite Hln1, Hpacked in Hi.
      set (z := Z.of_nat i).
      assert (Hz : 0 <= z < w * h) by lia.
      pose proof (Z.div_mod z w ltac:(lia)) as Hdm.
      pose proof (Z.mod_pos_bound z w Hw) as Hm.
      assert (Hq : 0 <= z / w < h).
      { split; [apply Z.div_pos; lia|apply Z.div_lt_upper_bound; lia]. }
      replace i with (Z.to_nat (z / w * p + z mod w)) by (rewrite Hpacked; lia).
      rewrite Hpx1, Hpx2 by assumption. reflexivity.
    + rewrite (lookup_ge_None_2 _ _ Hi).
      symmetry. apply lookup_ge_None_2. now rewrite Hln2, <- Hln1.
Qed.

Lemma createTestImage_deterministic_witness :
  createTestImage (packed (fun _ => 0)) no_image 512 512
  = createTestImage (packed (fun i => Z.of_nat i mod 256))
      (mkImage 1 1 1 [9]) 512 512.
Proof.
  apply (createTestImage_deterministic
           (packed (fun _ => 0)) (packed (fun i => Z.of_nat i mod 256))
           no_image (mkImage 1 1 1 [9]) 512 512);
    unfold UINT_MAX; simpl; try reflexivity; lia.
Defined.

(** ** The rotation request *)

Lemma static_cast_times_1_5 n :
  0 <= n <= MAX_SCALABLE ->
  static_cast_int (times_1_5 n) = Some (Qfloor (inject_Z n * (3 # 2))).
Proof.
  unfold MAX_SCALABLE. intros Hn.
  unfold static_cast_int, Qtruncate, times_1_5, Qfloor.
  change (Qnum (inject_Z n * (3 # 2))) with (n * 3).
  change (Qden (inject_Z n * (3 # 2))) with 2%positive.
  rewrite Z.quot_div_nonneg by lia.
  assert (Hq : 0 <= n * 3 / 2 <= INT_MAX).
  { unfold INT_MAX. split; [apply Z.div_pos; lia|].
    apply Z.lt_succ_r. apply Z.div_lt_upper_bound; lia. }
  unfold INT_MIN, INT_MAX in *.
  replace (-2147483648 <=? n * 3 / 2) with true by lia.
  replace (n * 3 / 2 <=? 2147483647) with true by lia.
  reflexivity.
Qed.

Lemma rotate_and_save_request E src args :
  rotation_request src = Some args ->
  rotate_and_save E src = after_backend E args (nppiRotate_8u_C1R E args).
Proof.
  intros H. unfold rotate_and_save, after_backend, saved_image. now rewrite H.
Qed.

(** C8.  The output canvas of the request is [floor (width * 1.5)] by
    [floor (height * 1.5)], for source dimensions whose one-and-a-half is
    an [int]; a 512 x 512 source gives 768 x 768. *)
Theorem canvas_is_one_and_a_half src :
  0 <= width src <= MAX_SCALABLE ->
  0 <= height src <= MAX_SCALABLE ->
  exists args,
    rotation_request src = Some args /\
    r_x (oBoundingBox args) = 0 /\ r_y (oBoundingBox args) = 0 /\
    r_width (oBoundingBox args) = Qfloor (inject_Z (width src) * (3 # 2)) /\
    r_height (oBoundingBox args) = Qfloor (inject_Z (height src) * (3 # 2)) /\
    (width src = 512 -> height src = 512 ->
       r_width (oBoundingBox args) = 768 /\ r_height (oBoundingBox args) = 768).
Proof.
  intros Hw Hh. unfold rotation_request. simpl.
  rewrite !to_int_id by in_range.
  rewrite !static_cast_times_1_5 by assumption.
  eexists. split; [reflexivity|]. simpl.
  do 4 (split; [reflexivity|]).
  intros -> ->. split; reflexivity.
Qed.

Lemma canvas_is_one_and_a_half_witness :
  exists args,
    rotation_request (mkImage 512 512 512 []) = Some args /\
    r_width (oBoundingBox args) = 768 /\ r_height (oBoundingBox args) = 768.
Proof.
  destruct (canvas_is_one_and_a_half (mkImage 512 512 512 []))
    as (args & Hreq & _ & _ & _ & _ & H512);
    [unfold MAX_SCALABLE; simpl; lia ..|].
  exists args. split; [exact Hreq|]. exact (H512 eq_refl eq_refl).
Defined.

(** C9.  The rotation centre given to the backend is
    [(width / 2, height / 2)] with the quotient truncated: an odd
    dimension [2 k + 1] gives [k], short of the geometric centre. *)
Theorem centre_is_truncated_half E src args :
  rotation_request src = Some args ->
  0 <= width src <= INT_MAX ->
  0 <= height src <= INT_MAX ->
  rotate_and_save E src = after_backend E args (nppiRotate_8u_C1R E args) /\
  pt_x (oRotationCenter args) = Z.quot (width src) 2 /\
  pt_y (oRotationCenter args) = Z.quot (height src) 2 /\
  2 * pt_x (oRotationCenter args)
    = (if Z.odd (width src) then width src - 1 else width src) /\
  2 * pt_y (oRotationCenter args)
    = (if Z.odd (height src) then height src - 1 else height src).
Proof.
  intros Hreq Hw Hh.
  split; [now apply rotate_and_save_request|].
  unfold rotation_request in Hreq. simpl in Hreq.
  rewrite !to_int_id in Hreq by in_range.
  destruct (static_cast_int (times_1_5 (width src))); [|discriminate].
  destruct (static_cast_int (times_1_5 (height src))); [|discriminate].
  injection Hreq as <-. simpl.
  rewrite !Z.quot_div_nonneg by lia.
  repeat split.
  - rewrite (Zodd_mod (width src)).
    pose proof (Z.div_mod (width src) 2 ltac:(lia)).
    pose proof (Z.mod_pos_bound (width src) 2 ltac:(lia)).
    destruct (Z.eqb_spec (width src mod 2) 1); lia.
  - rewrite (Zodd_mod (height src)).
    pose proof (Z.div_mod (height src) 2 ltac:(lia)).
    pose proof (Z.mod_pos_bound (height src) 2 ltac:(lia)).
    destruct (Z.eqb_spec (height src mod 2) 1); lia.
Qed.

Lemma centre_is_truncated_half_witness :
  exists args,
    rotation_request (mkImage 5 7 5 []) = Some args /\
    pt_x (oRotationCenter args) = 2 /\ pt_y (oRotationCenter args) = 3.
Proof.
  set (src := mkImage 5 7 5 []).
  set (args := {| pSrc := src;
                  oSrcSize := mkSize 5 7;
                  oSrcROI := mkRect 0 0 5 7;
                  oBoundingBox := mkRect 0 0 7 10;
                  angle := 45;
                  oRotationCenter := mkPoint 2 3;
                  eInterpolation := NPPI_INTER_NN |}).
  set (E := {| capable := true; input_file := None; output_writable := true;
               host := packed (fun _ => 0);
               locals := {| width0 := 0; height0 := 0 |};
               nppiRotate_8u_C1R := fun _ => None |}).
  assert (Hreq : rotation_request src = Some args) by reflexivity.
  destruct (centre_is_truncated_half E src args Hreq) as (_ & Hx & Hy & _);
    [unfold INT_MAX; simpl; lia ..|].
  exists args. split; [exact Hreq|]. split; [exact Hx|exact Hy].
Defined.

(** ** What the reader does not check *)

(** A stream cut short after the header: the call reports success, and
    the samples past the bytes present are whatever the new buffer held;
    two allocators that differ only there give two different images. *)
Lemma truncated_stream_accepted :
  let stream := chars "P5" ++ [NL] ++ chars "2 2" ++ [NL] ++ chars "255" ++ [NL; 1; 2] in
  let U := {| width0 := 0; height0 := 0 |} in
  loadImagePGM (packed (fun _ => 7)) U (Some stream) no_image
    = Ret (true, mkImage 2 2 2 [1; 2; 7; 7]) /\
  loadImagePGM (packed (fun _ => 9)) U (Some stream) no_image
    = Ret (true, mkImage 2 2 2 [1; 2; 9; 9]).
Proof. split; vm_compute; reflexivity. Qed.

(** C5, as the code has it.  After a header giving positive dimensions,
    fewer than [w * h] remaining bytes are accepted: [loadImagePGM]
    returns [true] with a [w] by [h] image that starts with the bytes
    present and continues with the uninitialised contents of the new
    buffer. *)
Theorem truncated_payload_partially_fills A U w h maxline m payload rImage :
  0 < w -> 0 < h -> w * h <= INT_MAX ->
  no_newline maxline -> stoi maxline = Ret m ->
  Z.of_nat (length payload) < w * h ->
  exists img,
    loadImagePGM A U (Some (header w h maxline ++ payload)) rImage = Ret (true, img) /\
    width img = w /\ height img = h /\
    take (length payload) (data img) = payload /\
    drop (length payload) (data img)
      = drop (length payload) (data (new_image A w h)).
Proof.
  intros Hw Hh Hfit Hml Hm Hshort.
  eexists. split; [now apply (load_after_header A U w h maxline m)|].
  simpl. rewrite !to_uint_id by in_range.
  rewrite (take_ge payload) by lia. unfold blit.
  repeat split.
  - now rewrite take_app_length.
  - now rewrite drop_app_length.
Qed.

Lemma truncated_payload_partially_fills_witness :
  exists img,
    loadImagePGM (packed (fun _ => 7)) {| width0 := 0; height0 := 0 |}
      (Some (header 2 2 (chars "255") ++ [1; 2])) no_image = Ret (true, img) /\
    width img = 2 /\ height img = 2 /\
    take 2 (data img) = [1; 2] /\
    drop 2 (data img) = drop 2 (data (new_image (packed (fun _ => 7)) 2 2)).
Proof.
  apply (truncated_payload_partially_fills (packed (fun _ => 7))
           {| width0 := 0; height0 := 0 |} 2 2 (chars "255") 255 [1; 2] no_image);
    unfold INT_MAX; simpl; try reflexivity; try lia.
  repeat constructor; discriminate.
Defined.

(** A dimension line whose second field is not an integer is not
    rejected: of "3.5" and of "3x" the reader takes the 3 and returns the
    2 by 3 image. *)
Lemma malformed_dimension_field_accepted :
  let U := {| width0 := 0; height0 := 0 |} in
  loadImagePGM (packed (fun _ => 7)) U
    (Some (chars "P5" ++ [NL] ++ chars "2 3.5" ++ [NL] ++ chars "255"
           ++ [NL; 1; 2; 3; 4; 5; 6]))
    no_image
    = Ret (true, mkImage 2 3 2 [1; 2; 3; 4; 5; 6]) /\
  loadImagePGM (packed (fun _ => 7)) U
    (Some (chars "P5" ++ [NL] ++ chars "2 3x" ++ [NL] ++ chars "255"
           ++ [NL; 1; 2; 3; 4; 5; 6]))
    no_image
    = Ret (true, mkImage 2 3 2 [1; 2; 3; 4; 5; 6]).
Proof. split; vm_compute; reflexivity. Qed.

Lemma never_false_after_magic A U content rImage :
  first_line content = chars "P5" ->
  forall img, loadImagePGM A U (Some content) rImage <> Ret (false, img).
Proof.
  intros Hmagic img. unfold loadImagePGM.
  pose proof (getline_open_first_line content []) as Hline.
  destruct (getline (open content) []) as [file line]. simpl in Hline.
  rewrite Hmagic in Hline. subst line.
  destruct (decide (chars "P5" = chars "P5")) as [_|]; [|congruence].
  destruct (skip_comments (comment_fuel file) file (chars "P5")) as [[file1 line1] probed].
  destruct (extract_int (open line1) (width0 U)) as [iss w].
  destruct (extract_int iss (height0 U)) as [iss' h].
  destruct (getline file1 line1) as [file2 line2].
  destruct (stoi line2); [|discriminate].
  destruct (read file2 (to_int (w * h))). discriminate.
Qed.

(** The reader on a dimension line that starts with two numbers: the
    rest of the line is dropped with the line, and what is left of
    [loadImagePGM] is the reading of the max-value line and of the
    samples. *)
Lemma load_after_dimension_numbers A U w h junk tail rImage :
  0 <= w <= INT_MAX -> 0 <= h <= INT_MAX ->
  no_newline junk -> not_a_digit_first junk ->
  loadImagePGM A U
    (Some (chars "P5" ++ NL :: dimension_line w h junk ++ NL :: tail)) rImage =
  let '(file, line) := getline (open tail) (dimension_line w h junk) in
  match stoi line with
  | Throw e => Throw e
  | Ret _ =>
      let '(_, got) := read file (to_int (w * h)) in
      Ret (true, set_data (new_image A w h) (blit got (data (new_image A w h))))
  end.
Proof.
  intros Hwr Hhr Hjunk Hfirstjunk.
  destruct (print_uint_spec w) as (Hwne & Hwd & Hwv);
    [unfold UINT_MAX, INT_MAX in *; lia|].
  destruct (print_uint_spec h) as (Hhne & Hhd & Hhv);
    [unfold UINT_MAX, INT_MAX in *; lia|].
  unfold dimension_line.
  set (pw := print_uint w) in *. set (ph := print_uint h) in *.
  clearbody pw ph.
  unfold loadImagePGM.
  rewrite (getline_open_app _ _ _ chars_P5_no_newline).
  destruct (decide (chars "P5" = chars "P5")) as [_|]; [|congruence].
  assert (Hline : no_newline (pw ++ SP :: ph ++ junk)).
  { apply Forall_app. split; [now apply digit_string_no_newline|].
    constructor; [discriminate|].
    apply Forall_app. split; [now apply digit_string_no_newline|assumption]. }
  unfold comment_fuel. cbn [skip_comments].
  rewrite (getline_open_app _ _ _ Hline).
  cbn [ok open failbit negb].
  assert (Hfirst : (str_at (pw ++ SP :: ph ++ junk) 0 =? HASH) = false).
  { destruct pw as [|c pw']; [congruence|].
    pose proof (isdigit_inv _ (Forall_inv Hwd)). unfold str_at, HASH. simpl. lia. }
  rewrite Hfirst.
  rewrite (extract_int_digits pw (SP :: ph ++ junk) _ Hwne Hwd);
    [|unfold INT_MIN, INT_MAX in *; lia|reflexivity].
  change {| buf := SP :: ph ++ junk; eofbit := at_end (SP :: ph ++ junk);
            failbit := false |}
    with (open (SP :: ph ++ junk)).
  rewrite extract_int_space.
  rewrite (extract_int_digits ph junk _ Hhne Hhd);
    [|unfold INT_MIN, INT_MAX in *; lia|exact Hfirstjunk].
  rewrite Hwv, Hhv. reflexivity.
Qed.

(** C3, as the code has it.  The dimension line is not validated.  After
    a first line "P5" no stream makes [loadImagePGM] return [false]; and
    when the dimension line starts with two positive numbers, whatever
    follows them on the line is dropped: the call throws what
    [std::stoi] throws on the max-value line, or else returns [true] with
    the [w] by [h] image filled from the bytes that follow. *)
Theorem dimension_line_not_validated A U w h junk maxline payload rImage :
  0 < w -> 0 < h -> w * h <= INT_MAX ->
  no_newline junk -> not_a_digit_first junk -> no_newline maxline ->
  (forall content img,
     first_line content = chars "P5" ->
     loadImagePGM A U (Some content) rImage <> Ret (false, img)) /\
  loadImagePGM A U
    (Some (chars "P5" ++ NL :: dimension_line w h junk ++ NL
           :: maxline ++ NL :: payload)) rImage
  = match stoi maxline with
    | Throw e => Throw e
    | Ret _ =>
        Ret (true,
             set_data (new_image A w h)
               (blit (take (Z.to_nat (w * h)) payload) (data (new_image A w h))))
    end.
Proof.
  intros Hw Hh Hfit Hjunk Hfirstjunk Hml. split.
  - intros content img Hmagic. now apply never_false_after_magic.
  - rewrite load_after_dimension_numbers;
      [|unfold INT_MAX in *; nia|unfold INT_MAX in *; nia|assumption|assumption].
    rewrite (getline_open_app _ _ _ Hml).
    destruct (stoi maxline); [|reflexivity].
    rewrite to_int_id by (unfold INT_MIN, INT_MAX in *; nia).
    reflexivity.
Qed.

Lemma dimension_line_not_validated_witness :
  loadImagePGM (packed (fun _ => 7)) {| width0 := 0; height0 := 0 |}
    (Some (chars "P5" ++ NL :: dimension_line 2 3 (chars ".5") ++ NL
           :: chars "255" ++ NL :: [1; 2; 3; 4; 5; 6])) no_image
  = match stoi (chars "255") with
    | Throw e => Throw e
    | Ret _ =>
        Ret (true,
             set_data (new_image (packed (fun _ => 7)) 2 3)
               (blit (take (Z.to_nat (2 * 3)) [1; 2; 3; 4; 5; 6])
                     (data (new_image (packed (fun _ => 7)) 2 3))))
    end.
Proof.
  apply (dimension_line_not_validated (packed (fun _ => 7))
           {| width0 := 0; height0 := 0 |} 2 3 (chars ".5") (chars "255")
           [1; 2; 3; 4; 5; 6] no_image);
    try (unfold INT_MAX; lia); try reflexivity;
    repeat constructor; discriminate.
Defined.

(** ** The comment loop *)

Lemma read_line_length l :
  match read_line l with
  | (ln, Some rest) => length l = S (length ln + length rest)
  | (ln, None) => ln = l
  end.
Proof.
  induction l as [|c r IH]; simpl; [reflexivity|].
  destruct (c =? NL); [reflexivity|].
  destruct (read_line r) as [ln [rest|]]; simpl; [lia|now rewrite IH].
Qed.

(** An iteration that goes on has consumed input. *)
Lemma getline_progress s line s' line' :
  getline s line = (s', line') -> ok s' = true -> line' <> [] ->
  (length (buf s') < length (buf s))%nat.
Proof.
  unfold getline. destruct (good s).
  - pose proof (read_line_length (buf s)) as Hlen.
    destruct (read_line (buf s)) as [ln [rest|]]; intros [= <- <-] _ Hne; simpl.
    + lia.
    + subst ln. destruct (buf s); [congruence|simpl; lia].
  - intros [= <- <-]. discriminate.
Qed.

(** The fuel of [comment_fuel] is never used up: any larger amount gives
    the same result, so the loop of the model is the loop of the code. *)
Lemma skip_comments_fuel n : forall m file line,
  (length (buf file) < n)%nat -> (length (buf file) < m)%nat ->
  skip_comments n file line = skip_comments m file line.
Proof.
  induction n as [|n IH]; intros m file line Hn Hm; [lia|].
  destruct m as [|m]; [lia|].
  cbn [skip_comments].
  destruct (getline file line) as [file1 line1] eqn:Hget.
  destruct (ok file1) eqn:Hok; [|reflexivity].
  destruct (str_at line1 0 =? HASH) eqn:Hhash; [|reflexivity].
  assert (Hne : line1 <> []).
  { intros ->. discriminate Hhash. }
  pose proof (getline_progress _ _ _ _ Hget Hok Hne).
  rewrite (IH m file1 line1) by lia. reflexivity.
Qed.

Lemma comment_fuel_enough file line k :
  skip_comments (comment_fuel file + k) file line
  = skip_comments (comment_fuel file) file line.
Proof. apply skip_comments_fuel; unfold comment_fuel; lia. Qed.

Lemma comment_lines_length comments :
  (length comments <= length (concat (map comment_line comments)))%nat.
Proof.
  induction comments as [|c cs IH]; simpl; [lia|].
  rewrite !length_app. simpl. lia.
Qed.

Lemma skip_comments_to_empty_line comments : forall fuel rest line,
  Forall no_newline comments ->
  (length comments < fuel)%nat ->
  skip_comments fuel (open (concat (map comment_line comments) ++ NL :: rest)) line
  = (open rest, [], map (cons HASH) comments ++ [[]]).
Proof.
  induction comments as [|c cs IH]; intros fuel rest line Hnl Hfuel;
    (destruct fuel as [|fuel]; [simpl in Hfuel; lia|]).
  - reflexivity.
  - inversion Hnl as [|? ? Hc Hcs]; subst.
    assert (Hline : no_newline (HASH :: c)) by (constructor; [discriminate|assumption]).
    cbn [skip_comments map concat].
    replace ((comment_line c ++ concat (map comment_line cs)) ++ NL :: rest)
      with ((HASH :: c) ++ NL :: (concat (map comment_line cs) ++ NL :: rest))
      by (unfold comment_line; simpl; now rewrite <- !app_assoc).
    rewrite (getline_open_app _ _ _ Hline).
    cbn [ok open failbit negb]. unfold str_at at 1. cbn [lookup list_lookup].
    rewrite Z.eqb_refl.
    rewrite IH by (try assumption; simpl in Hfuel; lia).
    reflexivity.
Qed.

Lemma comment_loop_in_bounds fuel : forall file line,
  Forall (fun l => in_bounds l 0 = true) (snd (skip_comments fuel file line)).
Proof.
  induction fuel as [|fuel IH]; intros file line; cbn [skip_comments].
  - constructor.
  - destruct (getline file line) as [file1 line1].
    destruct (ok file1); [|constructor].
    destruct (str_at line1 0 =? HASH).
    + specialize (IH file1 line1).
      destruct (skip_comments fuel file1 line1) as [[file2 line2] probed].
      constructor; [reflexivity|exact IH].
    + constructor; [reflexivity|constructor].
Qed.

(** On a stream with an empty line after the magic line the loop reads
    element 0 of the empty string; the position is the size of the
    string, where the read is defined and gives the terminator, and the
    loop leaves in the ordinary way.  No stream makes the loop index a
    string past its size. *)
Lemma empty_line_index_is_in_bounds :
  let rest := chars "2 2" ++ [NL] ++ chars "255" ++ [NL; 1; 2; 3; 4] in
  getline (open (chars "P5" ++ NL :: NL :: rest)) [] = (open (NL :: rest), chars "P5") /\
  skip_comments (comment_fuel (open (NL :: rest))) (open (NL :: rest)) (chars "P5")
    = (open rest, [], [[]]) /\
  in_bounds [] 0 = true /\ str_at [] 0 = 0 /\
  (forall fuel file line,
     Forall (fun l => in_bounds l 0 = true) (snd (skip_comments fuel file line))).
Proof.
  repeat split; try reflexivity.
  intros fuel file line. apply comment_loop_in_bounds.
Qed.

(** C10, as the code has it.  With an empty line after the magic line and
    any comment lines, the comment loop reads element 0 of an empty
    string, unguarded.  The read is at the position equal to the size of
    the string, which is in bounds: it gives the terminator 0, which is
    not '#', so that the loop ends there with the empty line as the
    dimension line.  Every string the loop indexes, it indexes in
    bounds. *)
Theorem comment_loop_reads_terminator comments rest :
  Forall no_newline comments ->
  let body := concat (map comment_line comments) ++ NL :: rest in
  getline (open (chars "P5" ++ NL :: body)) [] = (open body, chars "P5") /\
  skip_comments (comment_fuel (open body)) (open body) (chars "P5")
    = (open rest, [], map (cons HASH) comments ++ [[]]) /\
  Forall (fun l => in_bounds l 0 = true) (map (cons HASH) comments ++ [[]]) /\
  in_bounds [] 0 = true /\ in_bounds [] 1 = false /\
  str_at [] 0 = 0 /\ (str_at [] 0 =? HASH) = false.
Proof.
  intros Hnl body.
  assert (Hloop : skip_comments (comment_fuel (open body)) (open body) (chars "P5")
                  = (open rest, [], map (cons HASH) comments ++ [[]])).
  { apply skip_comments_to_empty_line; [assumption|].
    unfold comment_fuel, body, open. cbn [buf].
    rewrite length_app. pose proof (comment_lines_length comments). lia. }
  split; [apply getline_open_app, chars_P5_no_newline|].
  split; [exact Hloop|].
  split; [|repeat split].
  pose proof (comment_loop_in_bounds (comment_fuel (open body)) (open body) (chars "P5"))
    as Hin.
  now rewrite Hloop in Hin.
Qed.

Lemma comment_loop_reads_terminator_witness :
  let body := concat (map comment_line [chars "made by hand"])
              ++ NL :: chars "2 2" ++ [NL] ++ chars "255" ++ [NL; 1; 2; 3; 4] in
  getline (open (chars "P5" ++ NL :: body)) [] = (open body, chars "P5") /\
  skip_comments (comment_fuel (open body)) (open body) (chars "P5")
    = (open (chars "2 2" ++ [NL] ++ chars "255" ++ [NL; 1; 2; 3; 4]), [],
       map (cons HASH) [chars "made by hand"] ++ [[]]) /\
  Forall (fun l => in_bounds l 0 = true) (map (cons HASH) [chars "made by hand"] ++ [[]]) /\
  in_bounds [] 0 = true /\ in_bounds [] 1 = false /\
  str_at [] 0 = 0 /\ (str_at [] 0 =? HASH) = false.
Proof.
  apply (comment_loop_reads_terminator [chars "made by hand"]).
  repeat constructor; discriminate.
Defined.

(** ** The fallback of [main] *)

Lemma fill_checkerboard_dims w h img :
  width (fill_checkerboard w h img) = width img /\
  height (fill_checkerboard w h img) = height img.
Proof.
  unfold fill_checkerboard, for_upto.
  apply (for_loop_ind (fun _ t => width t = width img /\ height t = height img));
    [now split|].
  intros j t _ Ht.
  apply (for_loop_ind (fun _ t => width t = width img /\ height t = height img));
    [assumption|].
  intros k u _ Hu. exact Hu.
Qed.

Lemma fallback_is_generated A rImage :
  fallback_pattern A = createTestImage A rImage 512 512.
Proof. unfold fallback_pattern, createTestImage, fill_checkerboard. reflexivity. Qed.

Lemma createTestImage_dims A rImage w h :
  width (createTestImage A rImage w h) = to_uint w /\
  height (createTestImage A rImage w h) = to_uint h.
Proof.
  unfold createTestImage.
  destruct (fill_checkerboard_dims w h (new_image A w h)) as [Hw Hh].
  now rewrite Hw, Hh.
Qed.

Lemma request_for_pattern A rImage :
  rotation_request (createTestImage A rImage 512 512) =
  Some {| pSrc := createTestImage A rImage 512 512;
          oSrcSize := mkSize 512 512;
          oSrcROI := mkRect 0 0 512 512;
          oBoundingBox := mkRect 0 0 768 768;
          angle := 45;
          oRotationCenter := mkPoint 256 256;
          eInterpolation := NPPI_INTER_NN |}.
Proof.
  unfold rotation_request.
  destruct (createTestImage_dims A rImage 512 512) as [-> ->].
  reflexivity.
Qed.

(** An unparseable max-value line ends the run in the handler, without
    fallback; an unparseable dimension line is no failure at all, and the
    run goes on with the empty image it produced. *)
Lemma header_errors_without_fallback :
  let E (input : list Z) :=
    {| capable := true; input_file := Some input; output_writable := true;
       host := packed (fun _ => 0);
       locals := {| width0 := 0; height0 := 0 |};
       nppiRotate_8u_C1R := fun args => Some (data (pSrc args)) |} in
  let bad_max := chars "P5" ++ [NL] ++ chars "2 2" ++ [NL] ++ chars "xx" ++ [NL; 1; 2; 3; 4] in
  let bad_dims := chars "P5" ++ [NL] ++ chars "abc" ++ [NL] ++ chars "255" ++ [NL; 1; 2; 3; 4] in
  loadImagePGM (host (E bad_max)) (locals (E bad_max)) (Some bad_max) no_image
    = Throw std_invalid_argument /\
  main_real (E bad_max) = Exit EXIT_FAILURE None /\
  loadImagePGM (host (E bad_dims)) (locals (E bad_dims)) (Some bad_dims) no_image
    = Ret (true, mkImage 0 0 0 []) /\
  main_real (E bad_dims)
    = Exit EXIT_SUCCESS (Some (chars "P5" ++ [NL] ++ chars "0 0" ++ [NL] ++ chars "255" ++ [NL])).
Proof. repeat split; vm_compute; reflexivity. Qed.

(** C2, as the code has it.  When the input file cannot be opened, or its
    first line is not "P5", [main] takes the generated 512 x 512
    checkerboard as the source and goes on to the backend with it; the
    run ends with status 0 and the encoded result once the backend
    succeeds and the output file opens. *)
Theorem load_failure_substitutes_pattern E :
  capable E = true ->
  (input_file E = None \/
   exists content, input_file E = Some content /\ first_line content <> chars "P5") ->
  exists args,
    rotation_request (createTestImage (host E) no_image 512 512) = Some args /\
    pSrc args = createTestImage (host E) no_image 512 512 /\
    main_real E = after_backend E args (nppiRotate_8u_C1R E args) /\
    (forall pixels,
       nppiRotate_8u_C1R E args = Some pixels -> output_writable E = true ->
       exists bytes,
         saveImagePGM true (saved_image (host E) args pixels) = Ret bytes /\
         main_real E = Exit EXIT_SUCCESS (Some bytes)).
Proof.
  intros Hcap Hfail.
  pose proof (request_for_pattern (host E) no_image) as Hreq.
  eexists. split; [exact Hreq|]. split; [reflexivity|].
  assert (Hload : loadImagePGM (host E) (locals E) (input_file E) no_image
                  = Ret (false, no_image)).
  { destruct Hfail as [->|(content & -> & Hmagic)]; [reflexivity|].
    now apply load_wrong_magic. }
  assert (Hmain : main_real E =
                  rotate_and_save E (createTestImage (host E) no_image 512 512)).
  { unfold main_real.
    rewrite Hcap, Hload, (fallback_is_generated (host E) no_image). reflexivity. }
  rewrite Hmain, (rotate_and_save_request _ _ _ Hreq).
  split; [reflexivity|].
  intros pixels Hpx Hout. unfold after_backend. rewrite Hpx, Hout.
  unfold saveImagePGM. eexists. split; reflexivity.
Qed.

Lemma load_failure_substitutes_pattern_witness :
  let E := {| capable := true; input_file := None; output_writable := true;
              host := packed (fun _ => 0);
              locals := {| width0 := 0; height0 := 0 |};
              nppiRotate_8u_C1R := fun _ => Some [] |} in
  exists args,
    rotation_request (createTestImage (host E) no_image 512 512) = Some args /\
    pSrc args = createTestImage (host E) no_image 512 512 /\
    main_real E = after_backend E args (nppiRotate_8u_C1R E args) /\
    (forall pixels,
       nppiRotate_8u_C1R E args = Some pixels -> output_writable E = true ->
       exists bytes,
         saveImagePGM true (saved_image (host E) args pixels) = Ret bytes /\
         main_real E = Exit EXIT_SUCCESS (Some bytes)).
Proof.
  intros E. apply (load_failure_substitutes_pattern E); [reflexivity|].
  left. reflexivity.
Defined.

(** * Further properties of the reader *)

(** The reader on a stream that begins with the magic line and a
    dimension line in the writer's layout: what is left of
    [loadImagePGM] is the reading of the max-value line and of the
    samples. *)
Lemma load_after_dimensions A U w h tail rImage :
  0 <= w <= INT_MAX -> 0 <= h <= INT_MAX ->
  loadImagePGM A U (Some (dimension_lines w h ++ tail)) rImage =
  let '(file, line) := getline (open tail) (print_uint w ++ SP :: print_uint h) in
  match stoi line with
  | Throw e => Throw e
  | Ret _ =>
      let '(_, got) := read file (to_int (w * h)) in
      Ret (true, set_data (new_image A w h) (blit got (data (new_image A w h))))
  end.
Proof.
  intros Hwr Hhr.
  destruct (print_uint_spec w) as (Hwne & Hwd & Hwv); [in_range|].
  destruct (print_uint_spec h) as (Hhne & Hhd & Hhv); [in_range|].
  unfold dimension_lines.
  set (pw := print_uint w) in *. set (ph := print_uint h) in *.
  clearbody pw ph.
  unfold loadImagePGM.
  repeat rewrite <- app_assoc. cbn [app].
  rewrite (getline_open_app _ _ _ chars_P5_no_newline).
  destruct (decide (chars "P5" = chars "P5")) as [_|]; [|congruence].
  assert (Hline : no_newline (pw ++ SP :: ph)).
  { apply Forall_app. split; [now apply digit_string_no_newline|].
    constructor; [discriminate|now apply digit_string_no_newline]. }
  change (pw ++ SP :: ph ++ NL :: tail) with (pw ++ (SP :: ph) ++ NL :: tail).
  rewrite (app_assoc pw).
  unfold comment_fuel. cbn [skip_comments].
  rewrite (getline_open_app _ _ _ Hline).
  cbn [ok open failbit negb].
  assert (Hfirst : (str_at (pw ++ SP :: ph) 0 =? HASH) = false).
  { destruct pw as [|c pw']; [congruence|].
    pose proof (isdigit_inv _ (Forall_inv Hwd)). unfold str_at, HASH. simpl. lia. }
  rewrite Hfirst.
  rewrite (extract_int_digits pw (SP :: ph) _ Hwne Hwd);
    [|in_range|reflexivity].
  change {| buf := SP :: ph; eofbit := at_end (SP :: ph); failbit := false |}
    with (open (SP :: ph)).
  rewrite extract_int_space.
  rewrite <- (app_nil_r ph) at 1.
  rewrite (extract_int_digits ph [] _ Hhne Hhd); [|in_range|exact I].
  rewrite Hwv, Hhv. reflexivity.
Qed.

(** X1.  [loadImagePGM] returns [false] exactly when the file cannot be
    opened or its first line is not "P5", and then the caller's image is
    the one it passed in. *)
Theorem load_fails_exactly_on_open_or_magic A U file rImage :
  ((exists img, loadImagePGM A U file rImage = Ret (false, img)) <->
   (file = None \/
    exists content, file = Some content /\ first_line content <> chars "P5")) /\
  (forall img, loadImagePGM A U file rImage = Ret (false, img) -> img = rImage).
Proof.
  assert (Hcause : forall img, loadImagePGM A U file rImage = Ret (false, img) ->
            file = None \/
            exists content, file = Some content /\ first_line content <> chars "P5").
  { intros img Hload. destruct file as [content|]; [|now left].
    right. exists content. split; [reflexivity|].
    intros Hmagic. exact (never_false_after_magic A U content rImage Hmagic img Hload). }
  assert (Hfalse : (file = None \/
            exists content, file = Some content /\ first_line content <> chars "P5") ->
            loadImagePGM A U file rImage = Ret (false, rImage)).
  { intros [->|(content & -> & Hmagic)]; [reflexivity|now apply load_wrong_magic]. }
  split; [split|].
  - intros [img Hload]. exact (Hcause img Hload).
  - intros H. exists rImage. exact (Hfalse H).
  - intros img Hload. rewrite (Hfalse (Hcause img Hload)) in Hload. congruence.
Qed.

(** X2.  A max-value line from which [std::stoi] cannot take an [int]
    makes [loadImagePGM] throw what [stoi] throws, and [main] end in its
    handler: status 1, nothing written, no fallback image. *)
Theorem bad_max_value_aborts E w h maxline payload e :
  0 <= w <= INT_MAX -> 0 <= h <= INT_MAX ->
  no_newline maxline -> stoi maxline = Throw e ->
  capable E = true ->
  input_file E = Some (header w h maxline ++ payload) ->
  loadImagePGM (host E) (locals E) (input_file E) no_image = Throw e /\
  main_real E = Exit EXIT_FAILURE None.
Proof.
  intros Hw Hh Hml Hstoi Hcap Hin.
  assert (Hload : loadImagePGM (host E) (locals E) (input_file E) no_image = Throw e).
  { rewrite Hin.
    replace (header w h maxline ++ payload)
      with (dimension_lines w h ++ (maxline ++ NL :: payload))
      by (unfold header, dimension_lines; now rewrite <- !app_assoc).
    rewrite load_after_dimensions by assumption.
    rewrite (getline_open_app _ _ _ Hml), Hstoi. reflexivity. }
  split; [exact Hload|].
  unfold main_real. now rewrite Hcap, Hload.
Qed.

Lemma bad_max_value_aborts_witness :
  let E := {| capable := true;
              input_file := Some (header 2 2 (chars "high") ++ [1; 2; 3; 4]);
              output_writable := true;
              host := packed (fun _ => 0);
              locals := {| width0 := 0; height0 := 0 |};
              nppiRotate_8u_C1R := fun _ => Some [] |} in
  loadImagePGM (host E) (locals E) (input_file E) no_image
    = Throw std_invalid_argument /\
  main_real E = Exit EXIT_FAILURE None.
Proof.
  intros E.
  apply (bad_max_value_aborts E 2 2 (chars "high") [1; 2; 3; 4]);
    try reflexivity; try (unfold INT_MAX; lia).
  repeat constructor; discriminate.
Defined.

(** X3.  A stream that ends with the dimension line has no max-value
    line to convert: [loadImagePGM] throws [std::invalid_argument]. *)
Theorem missing_max_value_throws A U w h rImage :
  0 <= w <= INT_MAX -> 0 <= h <= INT_MAX ->
  loadImagePGM A U (Some (dimension_lines w h)) rImage = Throw std_invalid_argument.
Proof.
  intros Hw Hh.
  rewrite <- (app_nil_r (dimension_lines w h)).
  rewrite load_after_dimensions by assumption. reflexivity.
Qed.

Lemma missing_max_value_throws_witness :
  loadImagePGM (packed (fun _ => 0)) {| width0 := 0; height0 := 0 |}
    (Some (dimension_lines 640 480)) no_image = Throw std_invalid_argument.
Proof.
  apply missing_max_value_throws; unfold INT_MAX; lia.
Defined.

Lemma load_packed A U w h maxline m pixels extra rImage :
  0 <= w <= INT_MAX -> 0 <= h <= INT_MAX -> w * h <= INT_MAX ->
  row_pitch A w = w ->
  no_newline maxline -> stoi maxline = Ret m ->
  length pixels = Z.to_nat (w * h) ->
  loadImagePGM A U (Some (header w h maxline ++ pixels ++ extra)) rImage
  = Ret (true, mkImage w h w pixels).
Proof.
  intros Hwr Hhr Hfit HA Hml Hstoi Hlen.
  replace (header w h maxline ++ pixels ++ extra)
    with (dimension_lines w h ++ (maxline ++ NL :: pixels ++ extra))
    by (unfold header, dimension_lines; now rewrite <- !app_assoc).
  rewrite load_after_dimensions by assumption.
  rewrite (getline_open_app _ _ _ Hml), Hstoi.
  rewrite to_int_id by in_range.
  unfold read. cbn [good open eofbit failbit negb andb buf].
  rewrite <- Hlen, take_app_length.
  rewrite new_image_small by in_range.
  unfold set_data. cbn [width height pitch data]. rewrite HA.
  f_equal. f_equal. f_equal.
  apply blit_all. now rewrite length_map, length_seq.
Qed.

(** X4.  The max value is read and dropped, and nothing is read past the
    samples: for positive dimensions, with any max-value line
    [std::stoi] accepts and any bytes after the [w * h] samples, the
    image is the same (without padding: [w], [h] and the samples). *)
Theorem max_value_and_trailing_bytes_ignored A U w h maxline m pixels extra rImage :
  0 < w -> 0 < h -> w * h <= INT_MAX ->
  row_pitch A w = w ->
  no_newline maxline -> stoi maxline = Ret m ->
  length pixels = Z.to_nat (w * h) ->
  loadImagePGM A U (Some (header w h maxline ++ pixels ++ extra)) rImage
  = Ret (true, mkImage w h w pixels).
Proof.
  intros Hw Hh Hfit.
  apply (load_packed A U w h maxline m pixels extra rImage); in_range.
Qed.

Lemma max_value_and_trailing_bytes_ignored_witness :
  loadImagePGM (packed (fun _ => 0)) {| width0 := 0; height0 := 0 |}
    (Some (header 2 1 (chars "65535") ++ [8; 9] ++ [1; 2; 3])) no_image
  = Ret (true, mkImage 2 1 2 [8; 9]).
Proof.
  apply (max_value_and_trailing_bytes_ignored _ _ 2 1 (chars "65535") 65535);
    try reflexivity; try (unfold INT_MAX; lia).
  repeat constructor; discriminate.
Defined.

Lemma getline_open_any_line content line line' :
  getline (open content) line = getline (open content) line'.
Proof. reflexivity. Qed.

Lemma skip_comments_open_any_line n content line line' :
  skip_comments (S n) (open content) line = skip_comments (S n) (open content) line'.
Proof. cbn [skip_comments]. now rewrite (getline_open_any_line content line line'). Qed.

(** The loop over a run of comment lines: it goes on as on what follows
    them. *)
Lemma skip_comments_over_comments comments : forall n body line,
  Forall no_newline comments ->
  skip_comments (length comments + S n)
    (open (concat (map comment_line comments) ++ body)) line
  = let '(file, line', probed) := skip_comments (S n) (open body) line in
    (file, line', map (cons HASH) comments ++ probed).
Proof.
  induction comments as [|c cs IH]; intros n body line Hnl.
  - cbn [length concat map app Nat.add].
    destruct (skip_comments (S n) (open body) line) as [[file line'] probed].
    reflexivity.
  - inversion Hnl as [|? ? Hc Hcs]; subst.
    assert (Hline : no_newline (HASH :: c)) by (constructor; [discriminate|assumption]).
    specialize (IH n body (HASH :: c) Hcs).
    rewrite (skip_comments_open_any_line n body (HASH :: c) line) in IH.
    remember (skip_comments (S n) (open body) line) as after eqn:Hafter.
    cbn [length Nat.add skip_comments map concat].
    replace ((comment_line c ++ concat (map comment_line cs)) ++ body)
      with ((HASH :: c) ++ NL :: (concat (map comment_line cs) ++ body))
      by (unfold comment_line; simpl; now rewrite <- !app_assoc).
    rewrite (getline_open_app _ _ _ Hline).
    cbn [ok open failbit negb]. unfold str_at at 1. cbn [lookup list_lookup].
    rewrite Z.eqb_refl, IH.
    destruct after as [[file line'] probed]. reflexivity.
Qed.

(** X5.  Comment lines between the magic line and the rest of the stream
    are skipped: the stream decodes as it does without them, whatever
    follows. *)
Theorem comment_lines_are_skipped A U comments body rImage :
  Forall no_newline comments ->
  loadImagePGM A U
    (Some (chars "P5" ++ NL :: concat (map comment_line comments) ++ body)) rImage
  = loadImagePGM A U (Some (chars "P5" ++ NL :: body)) rImage.
Proof.
  intros Hnl. unfold loadImagePGM.
  rewrite !(getline_open_app _ _ _ chars_P5_no_newline).
  destruct (decide (chars "P5" = chars "P5")) as [_|]; [|congruence].
  set (long := concat (map comment_line comments) ++ body).
  set (n := S (length long)).
  rewrite (skip_comments_fuel (comment_fuel (open long)) (length comments + S n)
             (open long) (chars "P5"))
    by (unfold comment_fuel, n; cbn [buf open]; lia).
  unfold long at 1. rewrite (skip_comments_over_comments comments n body _ Hnl).
  rewrite (skip_comments_fuel (S n) (comment_fuel (open body)) (open body) (chars "P5")).
  - destruct (skip_comments (comment_fuel (open body)) (open body) (chars "P5"))
      as [[file line] probed]. reflexivity.
  - unfold n, long. cbn [buf open]. rewrite length_app. lia.
  - unfold comment_fuel. lia.
Qed.

Lemma comment_lines_are_skipped_witness :
  loadImagePGM (packed (fun _ => 0)) {| width0 := 0; height0 := 0 |}
    (Some (chars "P5" ++ NL :: concat (map comment_line [chars " one"; []; chars "# 3"])
           ++ chars "2 1" ++ NL :: chars "255" ++ NL :: [7; 8])) no_image
  = loadImagePGM (packed (fun _ => 0)) {| width0 := 0; height0 := 0 |}
      (Some (chars "P5" ++ NL :: chars "2 1" ++ NL :: chars "255" ++ NL :: [7; 8]))
      no_image.
Proof.
  apply (comment_lines_are_skipped _ _ [chars " one"; []; chars "# 3"]).
  repeat constructor; discriminate.
Defined.

(** * Further properties of the writer *)

(** The file [saveImagePGM] writes for an image with or without padding:
    the header, then the samples row by row with the padding left out. *)
Lemma save_layout img :
  0 <= width img <= pitch img -> 0 <= height img ->
  pitch img * height img <= UINT_MAX ->
  (Z.to_nat (pitch img * height img) <= length (data img))%nat ->
  exists body,
    saveImagePGM true img = Ret (pgm_header img ++ body) /\
    length body = Z.to_nat (width img * height img) /\
    forall x y, 0 <= x < width img -> 0 <= y < height img ->
      body !! Z.to_nat (y * width img + x) = sample img x y.
Proof.
  intros Hw Hh Hfit Hlen. unfold saveImagePGM, sample.
  set (w := width img) in *. set (h := height img) in *. set (p := pitch img) in *.
  assert (Hinv : exists body,
            for_upto h (fun y out => out ++ row img y) (pgm_header img)
              = pgm_header img ++ body /\
            length body = Z.to_nat (h * w) /\
            forall x y, 0 <= x < w -> 0 <= y < h ->
              body !! Z.to_nat (y * w + x) = data img !! Z.to_nat (y * p + x)).
  { apply (for_upto_ind (fun j out => exists body,
             out = pgm_header img ++ body /\
             length body = Z.to_nat (j * w) /\
             forall x y, 0 <= x < w -> 0 <= y < j ->
               body !! Z.to_nat (y * w + x) = data img !! Z.to_nat (y * p + x)));
      [assumption| |].
    - exists []. rewrite app_nil_r. repeat split. intros; lia.
    - intros j out Hj (body & -> & Hbody & Hpx).
      assert (Hrow : row img j = take (Z.to_nat w) (drop (Z.to_nat (j * p)) (data img))).
      { unfold row. fold w p. rewrite to_uint_id by in_range. reflexivity. }
      assert (Hrowlen : length (row img j) = Z.to_nat w).
      { rewrite Hrow, length_take, length_drop. nia. }
      exists (body ++ row img j). split; [now rewrite app_assoc|]. split.
      + rewrite length_app, Hbody, Hrowlen. nia.
      + intros x y Hx Hy. destruct (Z.eq_dec y j) as [->|Hne].
        * rewrite lookup_app_r by (rewrite Hbody; nia).
          rewrite Hbody, Hrow.
          replace (Z.to_nat (j * w + x) - Z.to_nat (j * w))%nat with (Z.to_nat x) by nia.
          rewrite lookup_take_lt by lia. rewrite lookup_drop.
          f_equal. nia.
        * rewrite lookup_app_l by (rewrite Hbody; nia).
          apply Hpx; lia. }
  destruct Hinv as (body & -> & Hbody & Hpx).
  exists body. split; [reflexivity|]. split; [|assumption].
  rewrite Hbody. f_equal. lia.
Qed.

(** X6.  [saveImagePGM] leaves the row padding out: of an image with
    [pitch >= width] it writes the header and then exactly
    [width * height] bytes, the sample [(x, y)] at offset
    [y * width + x] after the header. *)
Theorem save_drops_padding img :
  0 <= width img <= pitch img -> 0 <= height img ->
  pitch img * height img <= UINT_MAX ->
  (Z.to_nat (pitch img * height img) <= length (data img))%nat ->
  exists bytes,
    saveImagePGM true img = Ret bytes /\
    take (length (pgm_header img)) bytes = pgm_header img /\
    length bytes = (length (pgm_header img) + Z.to_nat (width img * height img))%nat /\
    forall x y, 0 <= x < width img -> 0 <= y < height img ->
      bytes !! (length (pgm_header img) + Z.to_nat (y * width img + x))%nat
      = sample img x y.
Proof.
  intros Hw Hh Hfit Hlen.
  destruct (save_layout img Hw Hh Hfit Hlen) as (body & Hsave & Hbody & Hpx).
  exists (pgm_header img ++ body). split; [assumption|]. split; [|split].
  - now rewrite take_app_length.
  - now rewrite length_app, Hbody.
  - intros x y Hx Hy.
    rewrite lookup_app_r by lia.
    replace (length (pgm_header img) + Z.to_nat (y * width img + x)
             - length (pgm_header img))%nat
      with (Z.to_nat (y * width img + x)) by lia.
    now apply Hpx.
Qed.

Lemma save_drops_padding_witness :
  let img := mkImage 2 2 3 [1; 2; 0; 3; 4; 0] in
  exists bytes,
    saveImagePGM true img = Ret bytes /\
    take (length (pgm_header img)) bytes = pgm_header img /\
    length bytes = (length (pgm_header img) + Z.to_nat (width img * height img))%nat /\
    forall x y, 0 <= x < width img -> 0 <= y < height img ->
      bytes !! (length (pgm_header img) + Z.to_nat (y * width img + x))%nat
      = sample img x y.
Proof.
  intros img. apply (save_drops_padding img); unfold UINT_MAX; simpl; lia.
Defined.

(** X7.  The round trip of an image with padding: what [loadImagePGM]
    (allocating without padding) reads back from the file written by
    [saveImagePGM] has the same width and height, a pitch equal to the
    width, and the same sample at every [(x, y)]. *)
Theorem padded_round_trip A U img rImage :
  0 < width img <= pitch img -> 0 < height img ->
  pitch img * height img <= UINT_MAX ->
  width img * height img <= INT_MAX ->
  (Z.to_nat (pitch img * height img) <= length (data img))%nat ->
  row_pitch A (width img) = width img ->
  exists bytes img',
    saveImagePGM true img = Ret bytes /\
    loadImagePGM A U (Some bytes) rImage = Ret (true, img') /\
    width img' = width img /\ height img' = height img /\
    pitch img' = width img /\
    forall x y, 0 <= x < width img -> 0 <= y < height img ->
      sample img' x y = sample img x y.
Proof.
  intros Hw Hh Hfit Hint Hlen HA.
  destruct (save_layout img) as (body & Hsave & Hbody & Hpx);
    [lia|lia|assumption|assumption|].
  exists (pgm_header img ++ body), (mkImage (width img) (height img) (width img) body).
  split; [assumption|]. split.
  - change (pgm_header img) with (header (width img) (height img) (chars "255")).
    rewrite <- (app_nil_r body) at 1.
    apply (load_packed A U _ _ (chars "255") 255); try assumption; try in_range.
    + repeat constructor; discriminate.
    + reflexivity.
  - cbn [width height pitch]. repeat split.
    intros x y Hx Hy. rewrite <- (Hpx x y Hx Hy). reflexivity.
Qed.

Lemma padded_round_trip_witness :
  exists bytes img',
    saveImagePGM true (mkImage 2 2 3 [1; 2; 0; 3; 4; 0]) = Ret bytes /\
    loadImagePGM (packed (fun _ => 9)) {| width0 := 0; height0 := 0 |}
      (Some bytes) no_image = Ret (true, img') /\
    width img' = 2 /\ height img' = 2 /\ pitch img' = 2 /\
    forall x y, 0 <= x < 2 -> 0 <= y < 2 ->
      sample img' x y = sample (mkImage 2 2 3 [1; 2; 0; 3; 4; 0]) x y.
Proof.
  apply (padded_round_trip (packed (fun _ => 9)) {| width0 := 0; height0 := 0 |}
           (mkImage 2 2 3 [1; 2; 0; 3; 4; 0]) no_image);
    unfold UINT_MAX, INT_MAX; simpl; try reflexivity; lia.
Defined.

(** * Further properties of the test pattern *)

(** X9.  [createTestImage] writes the [w * h] samples and nothing else:
    every other byte of the buffer, the padding of each row included,
    is as the allocation left it. *)
Theorem createTestImage_writes_only_pixels A rImage w h :
  0 <= w <= row_pitch A w -> 0 <= h -> w <= UINT_MAX -> h <= UINT_MAX ->
  row_pitch A w * h <= UINT_MAX ->
  forall i : nat,
    (forall x y, 0 <= x < w -> 0 <= y < h ->
       i <> Z.to_nat (y * row_pitch A w + x)) ->
    data (createTestImage A rImage w h) !! i = data (new_image A w h) !! i.
Proof.
  intros Hw Hh Hwmax Hhmax Hfit i Hi.
  unfold createTestImage.
  set (img0 := new_image A w h).
  assert (Hp0 : pitch img0 = row_pitch A w).
  { unfold img0. rewrite new_image_small by lia. reflexivity. }
  set (p := row_pitch A w) in *.
  set (keeps := fun img => pitch img = p /\ data img !! i = data img0 !! i).
  assert (Hkeeps : keeps (fill_checkerboard w h img0)).
  { unfold fill_checkerboard.
    apply (for_upto_ind (fun _ img => keeps img)); [assumption|now split|].
    intros j img Hj Himg.
    apply (for_upto_ind (fun _ img1 => keeps img1)); [lia|assumption|].
    clear img Himg. intros k img Hk [Hpi Hdata].
    unfold keeps, store. cbn [pitch data set_data]. split; [assumption|].
    rewrite Hpi.
    rewrite (to_uint_id (j * p)) by in_range.
    rewrite (to_uint_id (j * p + k)) by in_range.
    rewrite list_lookup_insert_ne; [assumption|].
    intros Heq. apply (Hi k j Hk Hj). now rewrite Heq. }
  exact (proj2 Hkeeps).
Qed.

Lemma createTestImage_writes_only_pixels_witness :
  let A := {| row_pitch := fun w => w + 2; fresh := fun _ => 5 |} in
  data (createTestImage A no_image 2 2) !! 3%nat = data (new_image A 2 2) !! 3%nat.
Proof.
  intros A.
  apply (createTestImage_writes_only_pixels A no_image 2 2);
    unfold UINT_MAX; simpl; lia.
Defined.

Lemma tile_colour_values x y : tile_colour x y = 255 \/ tile_colour x y = 64.
Proof. unfold tile_colour. destruct (Z.even _); auto. Qed.

Lemma tile_colour_next_column x y :
  tile_colour (x + 32) y <> tile_colour x y.
Proof.
  unfold tile_colour.
  replace ((x + 32) / 32 + y / 32) with (Z.succ (x / 32 + y / 32))
    by (replace (x + 32) with (x + 1 * 32) by lia; rewrite Z.div_add; lia).
  rewrite Z.even_succ, <- Z.negb_even.
  destruct (Z.even (x / 32 + y / 32)); discriminate.
Qed.

Lemma tile_colour_swap x y : tile_colour x y = tile_colour y x.
Proof. unfold tile_colour. now rewrite Z.add_comm. Qed.

(** X10.  The generated image is a checkerboard of 32 x 32 tiles: a
    sample differs from the one 32 columns to its right and from the one
    32 rows below, equals those 64 columns or rows away, and equals its
    mirror image across the diagonal. *)
Theorem checkerboard_alternates A rImage w h x y :
  0 < w -> 0 < h -> w <= row_pitch A w -> row_pitch A w * h <= UINT_MAX ->
  0 <= x < w -> 0 <= y < h ->
  let img := createTestImage A rImage w h in
  (x + 32 < w -> sample img (x + 32) y <> sample img x y) /\
  (y + 32 < h -> sample img x (y + 32) <> sample img x y) /\
  (x + 64 < w -> sample img (x + 64) y = sample img x y) /\
  (y + 64 < h -> sample img x (y + 64) = sample img x y) /\
  (x < h -> y < w -> sample img y x = sample img x y).
Proof.
  intros Hw Hh Hp Hfit Hx Hy img.
  destruct (createTestImage_spec A rImage w h Hw Hh Hp Hfit)
    as (_ & _ & Hpi & _ & Hpx).
  assert (Hall : forall a b, 0 <= a < w -> 0 <= b < h ->
            sample img a b = Some (tile_colour a b)).
  { intros a b Ha Hb. unfold sample, img. rewrite Hpi, (Hpx a b Ha Hb).
    now rewrite shade_tile_colour by lia. }
  repeat split; intros.
  - rewrite !Hall by lia. intros [= Heq]. exact (tile_colour_next_column x y Heq).
  - rewrite !Hall by lia. intros [= Heq].
    rewrite (tile_colour_swap x (y + 32)), (tile_colour_swap x y) in Heq.
    exact (tile_colour_next_column y x Heq).
  - rewrite !Hall by lia. f_equal. unfold tile_colour.
    replace (x + 64) with (x + 2 * 32) by lia. rewrite Z.div_add by lia.
    replace (x / 32 + 2 + y / 32) with (Z.succ (Z.succ (x / 32 + y / 32))) by lia.
    now rewrite !Z.even_succ_succ.
  - rewrite !Hall by lia. f_equal. unfold tile_colour.
    replace (y + 64) with (y + 2 * 32) by lia. rewrite Z.div_add by lia.
    replace (x / 32 + (y / 32 + 2)) with (Z.succ (Z.succ (x / 32 + y / 32))) by lia.
    now rewrite !Z.even_succ_succ.
  - rewrite !Hall by lia. f_equal. apply tile_colour_swap.
Qed.

Lemma checkerboard_alternates_witness :
  let img := createTestImage (packed (fun _ => 0)) no_image 512 512 in
  (40 + 32 < 512 -> sample img (40 + 32) 100 <> sample img 40 100) /\
  (100 + 32 < 512 -> sample img 40 (100 + 32) <> sample img 40 100) /\
  (40 + 64 < 512 -> sample img (40 + 64) 100 = sample img 40 100) /\
  (100 + 64 < 512 -> sample img 40 (100 + 64) = sample img 40 100) /\
  (40 < 512 -> 100 < 512 -> sample img 100 40 = sample img 40 100).
Proof.
  apply (checkerboard_alternates (packed (fun _ => 0)) no_image 512 512 40 100);
    unfold row_pitch, packed, UINT_MAX; lia.
Defined.

(** * Further properties of the drivers *)

Lemma rotate_and_save_sound E src :
  capable E = true -> outcome_sound E (rotate_and_save E src).
Proof.
  intros Hcap. unfold rotate_and_save.
  destruct (rotation_request src) as [args|]; [|exact Hcap].
  destruct (nppiRotate_8u_C1R E args) as [pixels|] eqn:Hback;
    [|right; now split].
  fold (saved_image (host E) args pixels).
  unfold saveImagePGM at 1.
  destruct (output_writable E) eqn:Hout; [|right; now split].
  repeat split; try assumption.
  exists args, pixels. split; [assumption|reflexivity].
Qed.

(** X11.  Every run of either [main] ends in one of these ways: with
    status 0 and no output because the device is not capable; with
    status 0 and an output file, which then is the encoding of what the
    backend returned for some request and was writable; with status 1
    and no output; or in a cast that is not defined.  Nothing is written
    by a run that fails. *)
Theorem main_outcomes_sound E :
  outcome_sound E (main_real E) /\ outcome_sound E (main_simple E).
Proof.
  split.
  - unfold main_real. destruct (capable E) eqn:Hcap; [|left; now split].
    destruct (loadImagePGM (host E) (locals E) (input_file E) no_image)
      as [[[|] img]|e].
    + now apply rotate_and_save_sound.
    + now apply rotate_and_save_sound.
    + right. now split.
  - unfold main_simple. destruct (capable E) eqn:Hcap; [|left; now split].
    now apply rotate_and_save_sound.
Qed.

Lemma saved_image_packed A args pixels :
  0 <= r_width (oBoundingBox args) <= UINT_MAX ->
  0 <= r_height (oBoundingBox args) <= UINT_MAX ->
  row_pitch A (r_width (oBoundingBox args)) = r_width (oBoundingBox args) ->
  saved_image A args pixels =
  mkImage (r_width (oBoundingBox args)) (r_height (oBoundingBox args))
          (r_width (oBoundingBox args)) pixels.
Proof.
  intros Hw Hh HA. unfold saved_image.
  rewrite new_image_small by assumption.
  unfold set_data. cbn [width height pitch]. now rewrite HA.
Qed.

(** X13.  With a capable device, a host allocator without padding, a
    writable output and a backend that returns 768 * 768 bytes for the
    request, the generating program exits with status 0 having written
    "P5", "768 768", "255" and then those bytes. *)
Theorem main_simple_output E pixels :
  capable E = true -> output_writable E = true ->
  row_pitch (host E) 768 = 768 ->
  length pixels = Z.to_nat (768 * 768) ->
  (forall args,
     rotation_request (createTestImage (host E) no_image 512 512) = Some args ->
     nppiRotate_8u_C1R E args = Some pixels) ->
  main_simple E =
  Exit EXIT_SUCCESS
    (Some (chars "P5" ++ [NL] ++ chars "768 768" ++ [NL] ++ chars "255" ++ [NL]
           ++ pixels)).
Proof.
  intros Hcap Hout HA Hlen Hback.
  pose proof (request_for_pattern (host E) no_image) as Hreq.
  unfold main_simple. rewrite Hcap.
  rewrite (rotate_and_save_request _ _ _ Hreq).
  rewrite (Hback _ Hreq). unfold after_backend. rewrite Hout.
  rewrite saved_image_packed;
    [|cbn [oBoundingBox r_width r_height]; unfold UINT_MAX; lia ..
     |cbn [oBoundingBox r_width]; exact HA].
  cbn [oBoundingBox r_width r_height].
  rewrite save_packed; cbn [width height pitch data];
    [|reflexivity|lia|lia|unfold UINT_MAX; lia|exact Hlen].
  reflexivity.
Qed.

Lemma main_simple_output_witness :
  let pixels := repeat 0 (Z.to_nat (768 * 768)) in
  let E := {| capable := true; input_file := None; output_writable := true;
              host := packed (fun _ => 0);
              locals := {| width0 := 0; height0 := 0 |};
              nppiRotate_8u_C1R := fun _ => Some pixels |} in
  main_simple E =
  Exit EXIT_SUCCESS
    (Some (chars "P5" ++ [NL] ++ chars "768 768" ++ [NL] ++ chars "255" ++ [NL]
           ++ pixels)).
Proof.
  intros pixels E.
  apply (main_simple_output E pixels);
    [reflexivity | reflexivity | reflexivity
    | apply repeat_length | intros args _; reflexivity].
Defined.

Lemma request_exists src :
  0 <= width src <= MAX_SCALABLE -> 0 <= height src <= MAX_SCALABLE ->
  rotation_request src =
  Some {| pSrc := src;
          oSrcSize := mkSize (width src) (height src);
          oSrcROI := mkRect 0 0 (width src) (height src);
          oBoundingBox := mkRect 0 0 (width src * 3 / 2) (height src * 3 / 2);
          angle := 45;
          oRotationCenter := mkPoint (width src / 2) (height src / 2);
          eInterpolation := NPPI_INTER_NN |}.
Proof.
  intros Hw Hh. unfold rotation_request. cbn [sz_width sz_height].
  rewrite !to_int_id by in_range.
  rewrite !static_cast_times_1_5 by assumption.
  rewrite !Z.quot_div_nonneg by lia. reflexivity.
Qed.

(** X14.  A well-formed file is decoded and rotated as it is: with a
    [w] by [h] file (read without padding) the request that reaches the
    backend has the decoded image as its source and [w], [h] as the
    source size, and the run ends as the backend's answer decides. *)
Theorem main_real_rotates_loaded_image E w h maxline m pixels extra :
  capable E = true ->
  input_file E = Some (header w h maxline ++ pixels ++ extra) ->
  0 < w <= MAX_SCALABLE -> 0 < h <= MAX_SCALABLE -> w * h <= INT_MAX ->
  row_pitch (host E) w = w ->
  no_newline maxline -> stoi maxline = Ret m ->
  length pixels = Z.to_nat (w * h) ->
  exists args,
    rotation_request (mkImage w h w pixels) = Some args /\
    pSrc args = mkImage w h w pixels /\
    oSrcSize args = mkSize w h /\
    main_real E = after_backend E args (nppiRotate_8u_C1R E args).
Proof.
  intros Hcap Hin Hw Hh Hfit HA Hml Hstoi Hlen.
  pose proof (request_exists (mkImage w h w pixels)) as Hreq.
  cbn [width height] in Hreq.
  specialize (Hreq ltac:(lia) ltac:(lia)).
  eexists. split; [exact Hreq|]. split; [reflexivity|]. split; [reflexivity|].
  unfold main_real. rewrite Hcap, Hin.
  rewrite (load_packed (host E) (locals E) w h maxline m pixels extra no_image)
    by (try assumption; in_range).
  now apply rotate_and_save_request.
Qed.

Lemma main_real_rotates_loaded_image_witness :
  let E := {| capable := true;
              input_file := Some (header 3 2 (chars "255") ++ [1; 2; 3; 4; 5; 6] ++ []);
              output_writable := true;
              host := packed (fun _ => 0);
              locals := {| width0 := 0; height0 := 0 |};
              nppiRotate_8u_C1R := fun _ => None |} in
  exists args,
    rotation_request (mkImage 3 2 3 [1; 2; 3; 4; 5; 6]) = Some args /\
    pSrc args = mkImage 3 2 3 [1; 2; 3; 4; 5; 6] /\
    oSrcSize args = mkSize 3 2 /\
    main_real E = after_backend E args (nppiRotate_8u_C1R E args).
Proof.
  intros E.
  apply (main_real_rotates_loaded_image E 3 2 (chars "255") 255 [1; 2; 3; 4; 5; 6] []);
    try reflexivity; try (unfold MAX_SCALABLE, INT_MAX; lia).
  repeat constructor; discriminate.
Defined.

(** X15.  The request for a source with positive dimensions covers the
    whole source, asks for 45 degrees with nearest-neighbour
    interpolation, has a canvas at least as large as the source, anchored
    at the origin, and a rotation centre inside the source. *)
Theorem request_geometry src :
  0 < width src <= MAX_SCALABLE -> 0 < height src <= MAX_SCALABLE ->
  exists args,
    rotation_request src = Some args /\
    oSrcROI args = mkRect 0 0 (width src) (height src) /\
    angle args = 45%Q /\ eInterpolation args = NPPI_INTER_NN /\
    r_x (oBoundingBox args) = 0 /\ r_y (oBoundingBox args) = 0 /\
    width src <= r_width (oBoundingBox args) /\
    height src <= r_height (oBoundingBox args) /\
    0 <= pt_x (oRotationCenter args) < width src /\
    0 <= pt_y (oRotationCenter args) < height src.
Proof.
  intros Hw Hh.
  eexists. split; [apply request_exists; lia|].
  cbn [oSrcROI angle eInterpolation oBoundingBox oRotationCenter
       r_x r_y r_width r_height pt_x pt_y].
  do 5 (split; [reflexivity|]).
  pose proof (Z.div_mod (width src * 3) 2 ltac:(lia)).
  pose proof (Z.mod_pos_bound (width src * 3) 2 ltac:(lia)).
  pose proof (Z.div_mod (height src * 3) 2 ltac:(lia)).
  pose proof (Z.mod_pos_bound (height src * 3) 2 ltac:(lia)).
  pose proof (Z.div_mod (width src) 2 ltac:(lia)).
  pose proof (Z.mod_pos_bound (width src) 2 ltac:(lia)).
  pose proof (Z.div_mod (height src) 2 ltac:(lia)).
  pose proof (Z.mod_pos_bound (height src) 2 ltac:(lia)).
  lia.
Qed.

Lemma request_geometry_witness :
  exists args,
    rotation_request (mkImage 1 1 1 [200]) = Some args /\
    width (mkImage 1 1 1 [200]) <= r_width (oBoundingBox args) /\
    0 <= pt_x (oRotationCenter args) < width (mkImage 1 1 1 [200]).
Proof.
  destruct (request_geometry (mkImage 1 1 1 [200]))
    as (args & Hreq & _ & _ & _ & _ & _ & Hwide & _ & Hx & _);
    [unfold MAX_SCALABLE; simpl; lia ..|].
  exists args. auto.
Defined.

(** X16.  The canvas against the diagonal the source comments on: the
    square of the canvas width is at least twice the square of the source
    width, so that the canvas is at least [sqrt 2] times as wide, for
    every source width but 1, 3 and 5, where it falls short; the same
    for the heights. *)
Theorem canvas_against_diagonal src :
  0 <= width src <= MAX_SCALABLE -> 0 <= height src <= MAX_SCALABLE ->
  exists args,
    rotation_request src = Some args /\
    (2 * (width src * width src)
       <= r_width (oBoundingBox args) * r_width (oBoundingBox args)
     <-> width src <> 1 /\ width src <> 3 /\ width src <> 5) /\
    (2 * (height src * height src)
       <= r_height (oBoundingBox args) * r_height (oBoundingBox args)
     <-> height src <> 1 /\ height src <> 3 /\ height src <> 5).
Proof.
  intros Hw Hh.
  assert (Hside : forall n, 0 <= n ->
            2 * (n * n) <= (n * 3 / 2) * (n * 3 / 2)
            <-> n <> 1 /\ n <> 3 /\ n <> 5).
  { intros n Hn.
    pose proof (Z.div_mod (n * 3) 2 ltac:(lia)) as Hdm.
    pose proof (Z.mod_pos_bound (n * 3) 2 ltac:(lia)) as Hm.
    set (c := n * 3 / 2) in *.
    destruct (Z_lt_le_dec n 6) as [Hsmall|Hlarge].
    - assert (Hcases : n = 0 \/ n = 1 \/ n = 2 \/ n = 3 \/ n = 4 \/ n = 5) by lia.
      split.
      + intros Hsq. repeat split; intros ->; vm_compute in c; subst c; lia.
      + intros (H1 & H3 & H5).
        destruct Hcases as [-> | [-> | [-> | [-> | [-> | ->]]]]];
          try congruence; vm_compute in c; subst c; lia.
    - split; [lia|]. intros _. nia. }
  eexists. split; [apply request_exists; assumption|].
  cbn [oBoundingBox r_width r_height].
  split; apply Hside; lia.
Qed.

Lemma canvas_against_diagonal_witness :
  exists args,
    rotation_request (mkImage 512 512 512 []) = Some args /\
    2 * (512 * 512) <= r_width (oBoundingBox args) * r_width (oBoundingBox args).
Proof.
  destruct (canvas_against_diagonal (mkImage 512 512 512 []))
    as (args & Hreq & [_ Hwide] & _);
    [unfold MAX_SCALABLE; simpl; lia ..|].
  exists args. split; [exact Hreq|].
  apply Hwide. simpl. lia.
Defined.

(** * The version report *)

Lemma cuda_version_fields M m :
  0 <= M -> 0 <= m <= 9 ->
  Z.quot (cuda_version M m) 1000 = M /\
  Z.quot (Z.rem (cuda_version M m) 100) 10 = m.
Proof.
  intros HM Hm. unfold cuda_version.
  rewrite Z.rem_mod_nonneg by lia.
  assert (Hmod : (1000 * M + 10 * m) mod 100 = 10 * m).
  { symmetry. apply (Z.mod_unique_pos _ _ (10 * M)); lia. }
  rewrite Hmod, !Z.quot_div_nonneg by lia.
  split.
  - symmetry. apply (Z.div_unique_pos _ _ _ (10 * m)); lia.
  - symmetry. apply (Z.div_unique_pos _ _ _ 0); lia.
Qed.

(** X17.  [printfNPPinfo] returns what [checkCudaCapabilities(1, 0)]
    says, and prints a driver or runtime version [1000 * major + 10 *
    minor] with a one-digit minor as "major.minor". *)
Theorem printfNPPinfo_reports_versions P dM dm rM rm :
  0 <= dM -> 0 <= dm <= 9 -> 0 <= rM -> 0 <= rm <= 9 ->
  cudaDriverGetVersion P = cuda_version dM dm ->
  cudaRuntimeGetVersion P = cuda_version rM rm ->
  printfNPPinfo P =
  (chars "NPP Library Version " ++ print_int (major (nppGetLibVersion P)) ++ [DOT]
     ++ print_int (minor (nppGetLibVersion P)) ++ [DOT]
     ++ print_int (build (nppGetLibVersion P)) ++ [NL]
   ++ chars "  CUDA Driver  Version: " ++ print_int dM ++ [DOT] ++ print_int dm ++ [NL]
   ++ chars "  CUDA Runtime Version: " ++ print_int rM ++ [DOT] ++ print_int rm ++ [NL],
   checkCudaCapabilities P 1 0).
Proof.
  intros HdM Hdm HrM Hrm Hd Hr. unfold printfNPPinfo. rewrite Hd, Hr.
  destruct (cuda_version_fields dM dm HdM Hdm) as [-> ->].
  destruct (cuda_version_fields rM rm HrM Hrm) as [-> ->].
  reflexivity.
Qed.

Lemma printfNPPinfo_reports_versions_witness :
  printfNPPinfo {| nppGetLibVersion := mkLibVersion 12 3 1;
                   cudaDriverGetVersion := 12040;
                   cudaRuntimeGetVersion := 11080;
                   checkCudaCapabilities := fun maj _ => 1 <=? maj |}
  = (chars "NPP Library Version 12.3.1" ++ [NL]
     ++ chars "  CUDA Driver  Version: 12.4" ++ [NL]
     ++ chars "  CUDA Runtime Version: 11.8" ++ [NL], true).
Proof.
  exact (printfNPPinfo_reports_versions
           {| nppGetLibVersion := mkLibVersion 12 3 1;
              cudaDriverGetVersion := 12040;
              cudaRuntimeGetVersion := 11080;
              checkCudaCapabilities := fun maj _ => 1 <=? maj |}
           12 4 11 8
           ltac:(lia) ltac:(lia) ltac:(lia) ltac:(lia) eq_refl eq_refl).
Defined.

(** * The magic line *)

Lemma first_line_app l rest :
  no_newline l -> first_line (l ++ NL :: rest) = l.
Proof.
  intros Hl. rewrite <- read_line_first_line. now rewrite read_line_app.
Qed.

(** X18.  The magic line must be "P5" to the byte: anything else on it
    before the newline, a carriage return or a space after "P5"
    included, makes [loadImagePGM] return [false] without touching the
    caller's image. *)
Theorem magic_line_is_exact A U suffix rest rImage :
  suffix <> [] -> no_newline suffix ->
  loadImagePGM A U (Some (chars "P5" ++ suffix ++ NL :: rest)) rImage
  = Ret (false, rImage).
Proof.
  intros Hne Hnl. apply load_wrong_magic.
  rewrite app_assoc, first_line_app.
  - intros Heq. apply Hne.
    apply (f_equal (drop 2)) in Heq. exact Heq.
  - apply Forall_app. split; [apply chars_P5_no_newline|assumption].
Qed.

Lemma magic_line_is_exact_witness :
  loadImagePGM (packed (fun _ => 0)) {| width0 := 0; height0 := 0 |}
    (Some (chars "P5" ++ [13] ++ NL :: chars "1 1" ++ [13; NL] ++ chars "255" ++ [13; NL; 7]))
    no_image
  = Ret (false, no_image).
Proof.
  apply (magic_line_is_exact _ _ [13]); [discriminate|].
  repeat constructor; discriminate.
Defined.

(** * The writer is injective *)

(** X20.  Two images without padding that [saveImagePGM] writes to the
    same bytes are the same image: width, height and samples can be told
    from the file. *)
Theorem save_injective img1 img2 bytes :
  0 < width img1 -> 0 < height img1 -> width img1 * height img1 <= INT_MAX ->
  pitch img1 = width img1 ->
  length (data img1) = Z.to_nat (width img1 * height img1) ->
  0 < width img2 -> 0 < height img2 -> width img2 * height img2 <= INT_MAX ->
  pitch img2 = width img2 ->
  length (data img2) = Z.to_nat (width img2 * height img2) ->
  saveImagePGM true img1 = Ret bytes ->
  saveImagePGM true img2 = Ret bytes ->
  img1 = img2.
Proof.
  intros Hw1 Hh1 Hfit1 Hp1 Hlen1 Hw2 Hh2 Hfit2 Hp2 Hlen2 Hs1 Hs2.
  rewrite save_packed in Hs1 by (try assumption; in_range).
  rewrite save_packed in Hs2 by (try assumption; in_range).
  injection Hs1 as Hb1. injection Hs2 as Hb2.
  set (A := packed (fun _ => 0)). set (U := {| width0 := 0; height0 := 0 |}).
  assert (Hl1 : loadImagePGM A U (Some bytes) no_image
                = Ret (true, mkImage (width img1) (height img1) (width img1) (data img1))).
  { rewrite <- Hb1, <- (app_nil_r (data img1)) at 1.
    change (pgm_header img1) with (header (width img1) (height img1) (chars "255")).
    apply (load_packed A U _ _ (chars "255") 255); try assumption; try in_range;
      try reflexivity.
    repeat constructor; discriminate. }
  assert (Hl2 : loadImagePGM A U (Some bytes) no_image
                = Ret (true, mkImage (width img2) (height img2) (width img2) (data img2))).
  { rewrite <- Hb2, <- (app_nil_r (data img2)) at 1.
    change (pgm_header img2) with (header (width img2) (height img2) (chars "255")).
    apply (load_packed A U _ _ (chars "255") 255); try assumption; try in_range;
      try reflexivity.
    repeat constructor; discriminate. }
  rewrite Hl1 in Hl2. injection Hl2 as Hw Hh Hd.
  apply image_eq; congruence.
Qed.

Lemma save_injective_witness :
  mkImage 2 1 2 [10; 32] = mkImage 2 1 2 [10; 32].
Proof.
  apply (save_injective (mkImage 2 1 2 [10; 32]) (mkImage 2 1 2 [10; 32])
           (pgm_header (mkImage 2 1 2 [10; 32]) ++ [10; 32]));
    unfold INT_MAX; simpl; try reflexivity; lia.
Defined.
